(** * Garmin workouts MCP: the workout translator and the credential manager

    A shallow embedding of [src/garmin-workout-creator.ts] (payload
    construction, duration and target parsing, interpretation of the HTTP
    response) and of [src/garmin-auth.ts] (token capture, JWT expiry,
    validity check), followed by the properties stated about them.

    Conventions of the model.
    - A JavaScript string is a [list ascii]: the model covers ASCII text.
      String literals are written with Rocq's string notation and coerced.
    - A JavaScript number is a [number]: [NaN], an infinity, or an exact
      rational.  Arithmetic is exact: the rounding of binary64 and the
      distinction between [0] and [-0] are not represented, so results agree
      with the program wherever the operands and the result are values of
      binary64 (the predicate [binary64]; the integers up to 2^53 in
      particular).  A statement that gives a result as a number in so many
      words carries this as a hypothesis; elsewhere results are given by the
      operations of the program.
    - Code that can throw returns an [outcome]. *)

From Stdlib Require Import ZArith QArith Qcanon Qpower DecimalString List String Ascii Bool Arith Lia.
Import ListNotations.

Close Scope Qc_scope.
Close Scope Q_scope.
Open Scope string_scope.
Open Scope list_scope.

(** ** Strings *)

Definition str : Type := list ascii.

Coercion list_ascii_of_string : string >-> list.

Fixpoint str_eqb (a b : str) : bool :=
  match a, b with
  | [], [] => true
  | x :: a', y :: b' => Ascii.eqb x y && str_eqb a' b'
  | _, _ => false
  end.

Definition is_digit (c : ascii) : bool :=
  match c with
  | "0" | "1" | "2" | "3" | "4" | "5" | "6" | "7" | "8" | "9" => true
  | _ => false
  end%char.

(** The ASCII part of the class [\s]: TAB, LF, VT, FF, CR and SPACE. *)
Definition is_space (c : ascii) : bool :=
  match c with
  | "009" | "010" | "011" | "012" | "013" | " " => true
  | _ => false
  end%char.

(** The class [[\d.]]. *)
Definition is_digit_or_dot (c : ascii) : bool :=
  is_digit c || Ascii.eqb c "."%char.

Definition digit_val (c : ascii) : Z :=
  Z.of_nat (nat_of_ascii c) - 48.

(** The value of a run of decimal digits, most significant first. *)
Definition digits_value (ds : str) : Z :=
  fold_left (fun acc c => 10 * acc + digit_val c)%Z ds 0%Z.

(** [toUpperCase] on one ASCII character; the canonicalisation the flag [i]
    applies before comparing characters. *)
Definition upper (c : ascii) : ascii :=
  let n := nat_of_ascii c in
  if (97 <=? n)%nat && (n <=? 122)%nat then ascii_of_nat (n - 32) else c.

Definition lower (c : ascii) : ascii :=
  let n := nat_of_ascii c in
  if (65 <=? n)%nat && (n <=? 90)%nat then ascii_of_nat (n + 32) else c.

Definition toLowerCase (s : str) : str := map lower s.

Definition chr_eqb (icase : bool) (a b : ascii) : bool :=
  if icase then Ascii.eqb (upper a) (upper b) else Ascii.eqb a b.

(** [s.includes(c)] for a one-character needle. *)
Definition includes (c : ascii) (s : str) : bool :=
  existsb (Ascii.eqb c) s.

(** [s.split(c)] for a one-character separator: always at least one piece. *)
Fixpoint split (c : ascii) (s : str) : list str :=
  match s with
  | [] => [[]]
  | x :: s' =>
      if Ascii.eqb x c then [] :: split c s'
      else match split c s' with
           | p :: ps => (x :: p) :: ps
           | [] => [[x]]
           end
  end.

(** [xs.join(sep)]. *)
Fixpoint join (sep : str) (xs : list str) : str :=
  match xs with
  | [] => []
  | [x] => x
  | x :: xs' => x ++ sep ++ join sep xs'
  end.

(** [s.startsWith(p)]; on failure nothing, on success the rest of [s]. *)
Fixpoint strip_prefix (icase : bool) (p s : str) : option str :=
  match p, s with
  | [], _ => Some s
  | a :: p', b :: s' => if chr_eqb icase a b then strip_prefix icase p' s' else None
  | _ :: _, [] => None
  end.

Definition startsWith (p s : str) : bool :=
  match strip_prefix false p s with Some _ => true | None => false end.

(** [s.replace(p, e)] for a string pattern [p] and the empty string [e]: the
    first occurrence of [p] is removed, and [s] is unchanged when there is
    none. *)
Fixpoint remove_first (p s : str) : str :=
  match strip_prefix false p s with
  | Some rest => rest
  | None => match s with
            | [] => []
            | c :: s' => c :: remove_first p s'
            end
  end.

Fixpoint take_while (f : ascii -> bool) (s : str) : str :=
  match s with
  | c :: s' => if f c then c :: take_while f s' else []
  | [] => []
  end.

Fixpoint drop_while (f : ascii -> bool) (s : str) : str :=
  match s with
  | c :: s' => if f c then drop_while f s' else s
  | [] => []
  end.

(** ** Numbers *)

Inductive number : Type :=
| NaN
| Inf (negative : bool)
| Fin (q : Q).

(** Finite values are kept in lowest terms, so that equal numbers are equal
    terms. *)
Definition fin (q : Q) : number := Fin (Qred q).

Definition of_Z (z : Z) : number := Fin (inject_Z z).

(** The finite values of binary64: [m * 2^e] for an integer [m] of at most
    53 bits and an exponent [e] from -1074 to 971. *)
Definition binary64 (v : number) : Prop :=
  exists m e : Z,
    (Z.abs m < 2 ^ 53)%Z /\ (-1074 <= e <= 971)%Z
    /\ v = fin (inject_Z m * 2 ^ e).

Definition Q_negative (q : Q) : bool := (Qnum q <? 0)%Z.
Definition Q_zero (q : Q) : bool := (Qnum q =? 0)%Z.

(** [a * b], exact: the product of the program when the operands and the
    exact product are values of binary64, and otherwise what the program
    rounds. *)
Definition js_mul (a b : number) : number :=
  match a, b with
  | NaN, _ | _, NaN => NaN
  | Inf s, Inf t => Inf (xorb s t)
  | Inf s, Fin q | Fin q, Inf s =>
      if Q_zero q then NaN else Inf (xorb s (Q_negative q))
  | Fin p, Fin q => fin (p * q)
  end.

(** [a + b], exact in the same way. *)
Definition js_add (a b : number) : number :=
  match a, b with
  | NaN, _ | _, NaN => NaN
  | Inf s, Inf t => if Bool.eqb s t then Inf s else NaN
  | Inf s, Fin _ | Fin _, Inf s => Inf s
  | Fin p, Fin q => fin (p + q)
  end.

Definition Qltb (p q : Q) : bool :=
  match (p ?= q)%Q with Lt => true | _ => false end.

(** [a < b]: false as soon as one side is [NaN]. *)
Definition js_lt (a b : number) : bool :=
  match a, b with
  | NaN, _ | _, NaN => false
  | Inf s, Inf t => s && negb t
  | Inf s, Fin _ => s
  | Fin _, Inf t => negb t
  | Fin p, Fin q => Qltb p q
  end.

(** Truthiness of a string: only the empty string is falsy. *)
Definition truthy (s : str) : bool :=
  match s with [] => false | _ :: _ => true end.

Definition js_neg (a : number) : number :=
  match a with
  | NaN => NaN
  | Inf s => Inf (negb s)
  | Fin q => fin (- q)
  end.

(** ** Conversions from strings to numbers *)

Definition trim_start (s : str) : str := drop_while is_space s.

Definition trim (s : str) : str :=
  rev (drop_while is_space (rev (drop_while is_space s))).

Definition is_hex_digit (c : ascii) : bool :=
  is_digit c ||
  match c with
  | "a" | "b" | "c" | "d" | "e" | "f" | "A" | "B" | "C" | "D" | "E" | "F" => true
  | _ => false
  end%char.

Definition is_octal_digit (c : ascii) : bool :=
  match c with
  | "0" | "1" | "2" | "3" | "4" | "5" | "6" | "7" => true
  | _ => false
  end%char.

Definition is_binary_digit (c : ascii) : bool :=
  match c with "0" | "1" => true | _ => false end%char.

Definition hex_val (c : ascii) : Z :=
  if is_digit c then digit_val c
  else Z.of_nat (nat_of_ascii (upper c)) - 55.

Definition radix_value (radix : Z) (ds : str) : Z :=
  fold_left (fun acc c => radix * acc + hex_val c)%Z ds 0%Z.

(** An optional sign: whether it is [-], and what follows it. *)
Definition strip_sign (s : str) : bool * str :=
  match s with
  | c :: r =>
      if Ascii.eqb c "+" then (false, r)
      else if Ascii.eqb c "-" then (true, r)
      else (false, s)
  | [] => (false, s)
  end.

(** The exponent part [e[+-]digits] of a decimal literal, when there is one:
    its value and what follows it. *)
Definition scan_exponent (s : str) : Z * str :=
  match s with
  | c :: r =>
      if Ascii.eqb c "e" || Ascii.eqb c "E" then
        let '(neg, r') := strip_sign r in
        match take_while is_digit r' with
        | [] => (0%Z, s)
        | ds => ((if neg then - digits_value ds else digits_value ds)%Z,
                 drop_while is_digit r')
        end
      else (0%Z, s)
  | [] => (0%Z, s)
  end.

(** The exact value of a decimal literal; the program has the nearest value
    of binary64, which is this one whenever it is a value of binary64. *)
Definition decimal (mantissa : Z) (exponent : Z) : number :=
  fin (inject_Z mantissa * 10 ^ exponent).

(** The longest prefix of [s] that is a [StrUnsignedDecimalLiteral], with
    its value and the rest of [s]. *)
Definition scan_unsigned (s : str) : option (number * str) :=
  match strip_prefix false "Infinity" s with
  | Some rest => Some (Inf false, rest)
  | None =>
      let d1 := take_while is_digit s in
      let r1 := drop_while is_digit s in
      match r1 with
      | "."%char :: r2 =>
          let d2 := take_while is_digit r2 in
          let r3 := drop_while is_digit r2 in
          match d1, d2 with
          | [], [] => None
          | _, _ =>
              let '(e, rest) := scan_exponent r3 in
              Some (decimal (digits_value (d1 ++ d2))
                            (e - Z.of_nat (List.length d2)), rest)
          end
      | _ =>
          match d1 with
          | [] => None
          | _ =>
              let '(e, rest) := scan_exponent r1 in
              Some (decimal (digits_value d1) e, rest)
          end
      end
  end.

Definition scan_signed (s : str) : option (number * str) :=
  let '(neg, r) := strip_sign s in
  match scan_unsigned r with
  | Some (v, rest) => Some (if neg then js_neg v else v, rest)
  | None => None
  end.

(** [parseFloat(s)]. *)
Definition parseFloat (s : str) : number :=
  match scan_signed (trim_start s) with
  | Some (v, _) => v
  | None => NaN
  end.

Definition radix_literal (radix : Z) (digit : ascii -> bool) (ds : str) : number :=
  match ds with
  | [] => NaN
  | _ => if forallb digit ds then of_Z (radix_value radix ds) else NaN
  end.

(** [Number(s)]: the whole of [s], blanks at both ends apart, has to be a
    numeric literal; the empty string is [0]. *)
Definition Number (s : str) : number :=
  let t := trim s in
  match t with
  | [] => of_Z 0
  | _ =>
      match strip_prefix true "0x" t with
      | Some ds => radix_literal 16 is_hex_digit ds
      | None =>
          match strip_prefix true "0o" t with
          | Some ds => radix_literal 8 is_octal_digit ds
          | None =>
              match strip_prefix true "0b" t with
              | Some ds => radix_literal 2 is_binary_digit ds
              | None =>
                  match scan_signed t with
                  | Some (v, []) => v
                  | _ => NaN
                  end
              end
          end
      end
  end.

(** [parseInt(s)] without a radix argument.  The integer is exact; the
    program has the nearest value of binary64, which is the integer itself
    up to 2^53. *)
Definition parseInt (s : str) : number :=
  let '(neg, u) := strip_sign (trim_start s) in
  let '(radix, digit, ds) :=
    match strip_prefix true "0x" u with
    | Some r => (16%Z, is_hex_digit, r)
    | None => (10%Z, is_digit, u)
    end in
  match take_while digit ds with
  | [] => NaN
  | run => let v := radix_value radix run in
           of_Z (if neg then - v else v)
  end.

(** ** Regular expressions

    The fragment of the regular-expression language the program uses:
    literal text, a character class repeated greedily, sequence, ordered
    alternation and numbered capture groups, matched by backtracking. *)

Inductive regex : Type :=
| Lit (text : str)
| Rep (cls : ascii -> bool) (min : nat)
| Seq (r1 r2 : regex)
| Alt (r1 r2 : regex)
| Grp (i : nat) (r : regex).

Definition captures : Type := list (nat * str).

Fixpoint capture (i : nat) (caps : captures) : option str :=
  match caps with
  | [] => None
  | (j, s) :: caps' => if Nat.eqb i j then Some s else capture i caps'
  end.

Section Matcher.

Variable icase : bool.
Variable A : Type.

Definition cont : Type := str -> captures -> option A.

(** [cls{min,}], greedy: the longest run first, then shorter ones. *)
Fixpoint rep (cls : ascii -> bool) (min : nat) (s : str) (caps : captures)
    (k : cont) : option A :=
  let stop := match min with O => k s caps | S _ => None end in
  match s with
  | c :: s' =>
      if cls c then
        match rep cls (Nat.pred min) s' caps k with
        | Some a => Some a
        | None => stop
        end
      else stop
  | [] => stop
  end.

Fixpoint run (r : regex) (s : str) (caps : captures) (k : cont) : option A :=
  match r with
  | Lit text =>
      match strip_prefix icase text s with
      | Some rest => k rest caps
      | None => None
      end
  | Rep cls min => rep cls min s caps k
  | Seq r1 r2 => run r1 s caps (fun s' caps' => run r2 s' caps' k)
  | Alt r1 r2 =>
      match run r1 s caps k with
      | Some a => Some a
      | None => run r2 s caps k
      end
  | Grp i r' =>
      run r' s caps (fun s' caps' =>
        k s' ((i, firstn (List.length s - List.length s') s) :: caps'))
  end.

End Matcher.

(** [s.match(r)] for a pattern without the flag [g]: the groups of the
    leftmost match, or nothing. *)
Fixpoint str_match (icase : bool) (r : regex) (s : str) : option captures :=
  match run icase captures r s [] (fun _ caps => Some caps) with
  | Some caps => Some caps
  | None =>
      match s with
      | [] => None
      | _ :: s' => str_match icase r s'
      end
  end.

Definition group (i : nat) (caps : captures) : str :=
  match capture i caps with Some s => s | None => [] end.

(** ** Thrown values *)

(** The result of code that can throw; a thrown value is represented by its
    message. *)
Inductive outcome (A : Type) : Type :=
| Returns (a : A)
| Throws (message : str).

Arguments Returns {A} a.
Arguments Throws {A} message.

Definition bind {A B : Type} (x : outcome A) (f : A -> outcome B) : outcome B :=
  match x with
  | Returns a => f a
  | Throws e => Throws e
  end.

Notation "'do' x <- e ; k" := (bind e (fun x => k))
  (at level 10, x name, e at level 100, k at level 200).

(** [Number.prototype.toString] on an integer (of magnitude below 10^21, where
    the program's numeral is the plain decimal one). *)
Definition Z_toString (z : Z) : str :=
  list_ascii_of_string (NilZero.string_of_int (Z.to_int z)).

(** * The workout translator ([garmin-workout-creator.ts]) *)

Record GarminApiResponse : Type := {
  api_workoutId : Z;
  api_workoutName : str
}.

Record WorkoutResult : Type := {
  success : bool;
  workoutId : option str;
  name : option str;
  url : option str;
  error : option str
}.

Record WorkoutStep : Type := {
  step_name : str;
  duration : str;
  target : str;
  intensity : str;
  notes : option str
}.

Record WorkoutData : Type := {
  workout_name : str;
  workout_sport : str;
  steps : list WorkoutStep
}.

(** An entry of [sportMapping] and of [stepTypeMapping]. *)
Record Mapping : Type := { id : Z; key : str; order : Z }.

(** [table[k]] on an object literal used as a table.  (Keys that every
    object inherits, such as [constructor], are not represented.) *)
Fixpoint table_get {V : Type} (k : str) (table : list (str * V)) : option V :=
  match table with
  | [] => None
  | (k', v) :: table' => if str_eqb k k' then Some v else table_get k table'
  end.

(** [a || b] where [a] is an object or [undefined]. *)
Definition or_else {V : Type} (a : option V) (b : V) : V :=
  match a with Some v => v | None => b end.

Record SportType : Type := {
  sportTypeId : Z;
  sportTypeKey : str;
  sport_displayOrder : Z
}.

Record StepType : Type := {
  stepTypeId : Z;
  stepTypeKey : str;
  step_displayOrder : Z
}.

Record ConditionType : Type := {
  conditionTypeId : Z;
  conditionTypeKey : str;
  condition_displayOrder : Z;
  displayable : bool
}.

Record TargetType : Type := {
  workoutTargetTypeId : Z;
  workoutTargetTypeKey : str;
  target_displayOrder : Z
}.

(** The step object [convertWorkoutStep] builds; [zoneNumber] is a property
    of it only when it is [Some]. *)
Record StepData : Type := {
  stepId : nat;
  stepOrder : nat;
  stepType : StepType;
  type : str;
  endCondition : ConditionType;
  endConditionValue : number;
  targetType : TargetType;
  zoneNumber : option number
}.

Record WorkoutSegment : Type := {
  segmentOrder : Z;
  segment_sportType : SportType;
  workoutSteps : list StepData
}.

(** The fields the program sets to [null] are [None]. *)
Record Payload : Type := {
  sportType : SportType;
  subSportType : option SportType;
  workoutName : str;
  estimatedDistanceUnit_unitKey : option str;
  workoutSegments : list WorkoutSegment;
  avgTrainingSpeed : number;
  estimatedDurationInSecs : Z;
  estimatedDistanceInMeters : Z;
  estimateType : option str;
  isWheelchair : bool
}.

(** *** [parseTarget] *)

Definition noTargetType : TargetType :=
  {| workoutTargetTypeId := 1;
     workoutTargetTypeKey := "no.target";
     target_displayOrder := 1 |}.

Definition heartRateZoneType : TargetType :=
  {| workoutTargetTypeId := 4;
     workoutTargetTypeKey := "heart.rate.zone";
     target_displayOrder := 4 |}.

Definition heartRateBpmType : TargetType :=
  {| workoutTargetTypeId := 2;
     workoutTargetTypeKey := "heart.rate.bpm";
     target_displayOrder := 2 |}.

Definition paceZoneType : TargetType :=
  {| workoutTargetTypeId := 6;
     workoutTargetTypeKey := "pace.zone";
     target_displayOrder := 6 |}.

(** [/Zone\s+(\d+)/i] *)
Definition zone_regex : regex :=
  Seq (Lit "Zone") (Seq (Rep is_space 1) (Grp 1 (Rep is_digit 1))).

(** [/(\d+)\s*BPM/i] *)
Definition bpm_regex : regex :=
  Seq (Grp 1 (Rep is_digit 1)) (Seq (Rep is_space 0) (Lit "BPM")).

(** [/(\d+):(\d+)\/km/i] *)
Definition pace_regex : regex :=
  Seq (Grp 1 (Rep is_digit 1))
      (Seq (Lit ":") (Seq (Grp 2 (Rep is_digit 1)) (Lit "/km"))).

Definition parseTarget (target : str) : TargetType * option number :=
  if negb (truthy target) || str_eqb target "Open" then (noTargetType, None)
  else
    match str_match true zone_regex target with
    | Some zoneMatch =>
        let zone := parseInt (group 1 zoneMatch) in
        (heartRateZoneType, Some zone)
    | None =>
        match str_match true bpm_regex target with
        | Some _ => (heartRateBpmType, None)
        | None =>
            match str_match true pace_regex target with
            | Some _ => (paceZoneType, None)
            | None => (noTargetType, None)
            end
        end
    end.

(** *** [parseDuration] *)

Definition lapButtonCondition : ConditionType :=
  {| conditionTypeId := 1;
     conditionTypeKey := "lap.button";
     condition_displayOrder := 1;
     displayable := true |}.

Definition distanceCondition : ConditionType :=
  {| conditionTypeId := 3;
     conditionTypeKey := "distance";
     condition_displayOrder := 3;
     displayable := true |}.

Definition timeCondition : ConditionType :=
  {| conditionTypeId := 2;
     conditionTypeKey := "time";
     condition_displayOrder := 2;
     displayable := true |}.

(** [/([\d.]+)\s*(km|m)/i] *)
Definition distance_regex : regex :=
  Seq (Grp 1 (Rep is_digit_or_dot 1))
      (Seq (Rep is_space 0) (Grp 2 (Alt (Lit "km") (Lit "m")))).

Definition parseDuration (duration : str) : ConditionType * number :=
  if str_eqb duration "Open" then (lapButtonCondition, of_Z 1000)
  else
    match str_match true distance_regex duration with
    | Some distanceMatch =>
        let value := parseFloat (group 1 distanceMatch) in
        let unit := toLowerCase (group 2 distanceMatch) in
        let meters :=
          if str_eqb unit "km" then js_mul value (of_Z 1000) else value in
        (distanceCondition, meters)
    | None =>
        if includes ":" duration then
          let parts := map Number (split ":" duration) in
          let seconds :=
            match parts with
            | [p0; p1] => js_add (js_mul p0 (of_Z 60)) p1
            | [p0; p1; p2] =>
                js_add (js_add (js_mul p0 (of_Z 3600)) (js_mul p1 (of_Z 60))) p2
            | _ => of_Z 0
            end in
          (timeCondition, seconds)
        else (lapButtonCondition, of_Z 1000)
    end.

(** *** [convertWorkoutStep] and [convertToGarminPayload] *)

Definition stepTypeMapping : list (str * Mapping) :=
  [ ("warmup" : str, {| id := 1; key := "warmup"; order := 1 |});
    ("cooldown" : str, {| id := 2; key := "cooldown"; order := 2 |});
    ("active" : str, {| id := 3; key := "interval"; order := 3 |});
    ("rest" : str, {| id := 4; key := "recovery"; order := 4 |}) ].

Definition activeMapping : Mapping :=
  {| id := 3; key := "interval"; order := 3 |}.

Definition convertWorkoutStep (step : WorkoutStep) (stepOrder : nat) : StepData :=
  let stepType :=
    or_else (table_get (intensity step) stepTypeMapping) activeMapping in
  let '(conditionType, conditionValue) := parseDuration (duration step) in
  let '(targetType, zoneNumber) := parseTarget (target step) in
  {| stepId := stepOrder;
     stepOrder := stepOrder;
     stepType := {| stepTypeId := id stepType;
                    stepTypeKey := key stepType;
                    step_displayOrder := order stepType |};
     type := "ExecutableStepDTO";
     endCondition := conditionType;
     endConditionValue := conditionValue;
     targetType := targetType;
     zoneNumber := zoneNumber |}.

Definition sportMapping : list (str * Mapping) :=
  [ ("running" : str, {| id := 1; key := "running"; order := 1 |});
    ("cycling" : str, {| id := 2; key := "cycling"; order := 2 |});
    ("swimming" : str, {| id := 5; key := "swimming"; order := 5 |}) ].

Definition runningMapping : Mapping :=
  {| id := 1; key := "running"; order := 1 |}.

(** [xs.map((x, index) => f(x, index))], the indices counted from [i]. *)
Fixpoint map_indexed {X Y : Type} (f : X -> nat -> Y) (i : nat) (xs : list X)
    : list Y :=
  match xs with
  | [] => []
  | x :: xs' => f x i :: map_indexed f (S i) xs'
  end.

Definition convertToGarminPayload (workoutData : WorkoutData) : Payload :=
  let sport :=
    or_else (table_get (workout_sport workoutData) sportMapping) runningMapping in
  let workoutSteps :=
    map_indexed (fun step index => convertWorkoutStep step (index + 1)) 0
                (steps workoutData) in
  let sportType :=
    {| sportTypeId := id sport;
       sportTypeKey := key sport;
       sport_displayOrder := order sport |} in
  {| sportType := sportType;
     subSportType := None;
     workoutName := workout_name workoutData;
     estimatedDistanceUnit_unitKey := None;
     workoutSegments :=
       [ {| segmentOrder := 1;
            segment_sportType := sportType;
            workoutSteps := workoutSteps |} ];
     avgTrainingSpeed := fin (30727914832080057 # 10000000000000000);
     estimatedDurationInSecs := 0;
     estimatedDistanceInMeters := 0;
     estimateType := None;
     isWheelchair := false |}.

(** *** [createGarminWorkout] *)

(** What the program reads of the response of [fetch]: [ok] is the getter of
    the library ([status] between 200 and 299), [text] and [json] are the
    results of reading the body as text and as parsed JSON. *)
Record Response : Type := {
  status : Z;
  statusText : str;
  text : outcome str;
  json : outcome GarminApiResponse
}.

Definition ok (response : Response) : bool :=
  (200 <=? status response)%Z && (status response <? 300)%Z.

Record Request : Type := {
  request_url : str;
  method : str;
  headers : list (str * str);
  body : Payload
}.

Definition LlmParser : Type := str -> str -> option str -> outcome WorkoutData.

Definition parseWorkoutDescriptionWithLLM : LlmParser :=
  fun _ _ _ =>
    Throws "LLM parser is required. This function should be called with an LLM parser from the MCP server.".

Definition failed (message : str) : WorkoutResult :=
  {| success := false;
     workoutId := None;
     name := None;
     url := None;
     error := Some message |}.

Definition workout_request (authToken cookies sport : str) (payload : Payload)
    : Request :=
  {| request_url := "https://connect.garmin.com/workout-service/workout";
     method := "POST";
     headers :=
       [ ("accept" : str, "application/json, text/plain, */*" : str);
         ("accept-language" : str, "en-GB,en-US;q=0.9,en;q=0.8" : str);
         ("authorization" : str, authToken);
         ("content-type" : str, "application/json;charset=UTF-8" : str);
         ("cookie" : str, cookies);
         ("di-backend" : str, "connectapi.garmin.com" : str);
         ("nk" : str, "NT" : str);
         ("origin" : str, "https://connect.garmin.com" : str);
         ("referer" : str,
          "https://connect.garmin.com/modern/workout/create/" ++ sport);
         ("user-agent" : str,
          "Mozilla/5.0 (Macintosh; Intel Mac OS X 10_15_7) AppleWebKit/537.36 (KHTML, like Gecko) Chrome/136.0.0.0 Safari/537.36" : str);
         ("x-app-ver" : str, "5.14.1.2" : str);
         ("x-lang" : str, "en-US" : str) ];
     body := payload |}.

(** The body of the [try] block.  The messages written to the console and
    the debug file, which is written in a [try] block of its own, leave the
    result as it is and are not represented. *)
Definition createGarminWorkout_try
    (description authToken cookies : str) (customName : option str)
    (sport : str) (llmParser : option LlmParser)
    (fetch : Request -> outcome Response) : outcome WorkoutResult :=
  do workoutData <-
    match llmParser with
    | Some parser => parser description sport customName
    | None => parseWorkoutDescriptionWithLLM description sport customName
    end;
  let payload := convertToGarminPayload workoutData in
  do response <- fetch (workout_request authToken cookies sport payload);
  if ok response then
    do result <- json response;
    let workoutId := Z_toString (api_workoutId result) in
    Returns {| success := true;
               workoutId := Some workoutId;
               name := Some (api_workoutName result);
               url := Some ("https://connect.garmin.com/modern/workout/" ++ workoutId);
               error := None |}
  else
    do errorText <- text response;
    if (status response =? 401)%Z then
      Returns (failed "Authentication expired. Please re-authenticate with Garmin Connect.")
    else
      Returns (failed ("API error: " ++ Z_toString (status response)
                         ++ " " ++ statusText response)).

Definition createGarminWorkout
    (description authToken cookies : str) (customName : option str)
    (sport : str) (llmParser : option LlmParser)
    (fetch : Request -> outcome Response) : WorkoutResult :=
  match createGarminWorkout_try description authToken cookies customName
          sport llmParser fetch with
  | Returns result => result
  | Throws message => failed message
  end.

(** * The credential manager ([garmin-auth.ts]) *)

Record AuthData : Type := {
  authToken : str;
  cookies : str;
  expiresAt : number;
  issuedAt : number
}.

#[local] Set Warnings "-register-all".

(** A value produced by [JSON.parse]. *)
Inductive json_value : Type :=
| JNull
| JBool (b : bool)
| JNumber (n : number)
| JString (s : str)
| JArray (items : list json_value)
| JObject (fields : list (str * json_value)).

(** [v.k] for a key [k] that is no built-in property: [None] is
    [undefined], and reading a property of [null] throws. *)
Definition get_property (v : json_value) (k : str) : outcome (option json_value) :=
  match v with
  | JNull => Throws ("Cannot read properties of null (reading '" ++ k ++ "')")
  | JObject fields => Returns (table_get k fields)
  | _ => Returns None
  end.

(** The conversion to a number that [*] applies to its operands.  An array
    converts through its [join]: the empty array as the empty string, a
    one-element array as its element does as a string, a longer one has a
    comma and is no numeral. *)
Fixpoint ToNumber_value (v : json_value) : number :=
  match v with
  | JNull => of_Z 0
  | JBool b => of_Z (if b then 1 else 0)
  | JNumber n => n
  | JString s => Number s
  | JArray [] => of_Z 0
  | JArray [x] =>
      match x with
      | JNull => of_Z 0
      | JBool _ => NaN
      | JObject _ => NaN
      | _ => ToNumber_value x
      end
  | JArray _ => NaN
  | JObject _ => NaN
  end.

Definition ToNumber (v : option json_value) : number :=
  match v with
  | None => NaN
  | Some x => ToNumber_value x
  end.

(** [isTokenValid], with [now] the value of [Date.now()]. *)
Definition isTokenValid (authData : AuthData) (now : Z) : bool :=
  let expiresAt := expiresAt authData in
  let bufferMs := js_mul (of_Z 30) (of_Z 1000) in
  js_lt (js_add (of_Z now) bufferMs) expiresAt.

Section Runtime.

(** Two functions of the platform are left open: the lenient base64
    decoding [Buffer.from(s, "base64").toString()], which never throws,
    and [JSON.parse]. *)
Variable base64_decode : str -> str.
Variable JSON_parse : str -> outcome json_value.

(** The body of the [try] block of [parseJWT]: [parts[1]] is [undefined]
    when the token has no dot, and reading its [length] throws. *)
Definition parseJWT_try (token : str) : outcome json_value :=
  let tokenWithoutBearer := remove_first "Bearer " token in
  let parts := split "." tokenWithoutBearer in
  do payload <-
    match nth_error parts 1 with
    | Some payload => Returns payload
    | None => Throws "Cannot read properties of undefined (reading 'length')"
    end;
  let paddedPayload :=
    payload ++ repeat "="%char ((4 - List.length payload mod 4) mod 4) in
  let decoded := base64_decode paddedPayload in
  JSON_parse decoded.

Definition parseJWT (token : str) : json_value :=
  match parseJWT_try token with
  | Returns claims => claims
  | Throws _ => JObject [("exp" : str, JNumber (of_Z 0));
                         ("iat" : str, JNumber (of_Z 0))]
  end.

(** What the browser does during one run of [authenticate]: for each call
    the program awaits, whether it returns or throws, and for the calls made
    once the request handler is installed, the requests the page issued
    while the call was pending (each with its [authorization] header, if
    it has one). *)
Record Observed (A : Type) : Type := {
  requests : list (option str);
  result : outcome A
}.

Arguments requests {A} o.
Arguments result {A} o.

Record Cookie : Type := { cookie_name : str; cookie_value : str }.

Record Browser : Type := {
  launch : outcome unit;
  newPage : outcome unit;
  setUserAgent : outcome unit;
  evaluateOnNewDocument : outcome unit;
  setViewport : outcome unit;
  setRequestInterception : outcome unit;
  goto : Observed unit;
  waitForFunction : Observed unit;
  page_cookies : Observed (list Cookie);
  reload_and_pause : Observed unit;
  close : outcome unit
}.

(** The handler of the [request] event, as a step on the variable
    [authToken]. *)
Definition on_request (authToken : str) (authHeader : option str) : str :=
  match authHeader with
  | Some h =>
      if truthy h && startsWith "Bearer " h && negb (truthy authToken)
      then h else authToken
  | None => authToken
  end.

Definition observe {A : Type} (o : Observed A) (authToken : str) : str :=
  fold_left on_request (requests o) authToken.

(** The file [auth.json]: the record it holds, if any. *)
Definition Store : Type := option AuthData.

(** What a call of [writeFileSync] that is to replace the text of a file
    leaves in it.  The file is opened with truncation and then written:
    - [Written]: the file holds the new text;
    - [Refused]: the file could not be opened, and is as it was;
    - [Cut n]: the file was opened, which empties it, and the write failed
      after [n] characters: the file holds a part of the new text, without
      its last character at least.
    [storeAuth] catches what the call throws and logs it, so that the file is
    all that tells these apart. *)
Inductive WriteOutcome : Type :=
| Written
| Refused
| Cut (n : nat).

(** [storeAuth], on the record the file holds.  The text of a record ends
    with its closing brace, so that a part of it is no JSON text and holds
    no record. *)
Definition storeAuth (written : WriteOutcome) (authData : AuthData)
    (store : Store) : Store :=
  match written with
  | Written => Some authData
  | Refused => store
  | Cut _ => None
  end.

(** The body of the [try] block of [authenticate]. *)
Definition authenticate_try (browser : Browser) (written : WriteOutcome)
    (store : Store) : outcome (option AuthData * Store) :=
  do _ <- newPage browser;
  do _ <- setUserAgent browser;
  do _ <- evaluateOnNewDocument browser;
  do _ <- setViewport browser;
  let authToken : str := [] in
  do _ <- setRequestInterception browser;
  let authToken := observe (goto browser) authToken in
  do _ <- result (goto browser);
  let authToken := observe (waitForFunction browser) authToken in
  do _ <- result (waitForFunction browser);
  let authToken := observe (page_cookies browser) authToken in
  do pageCookies <- result (page_cookies browser);
  let cookies :=
    join "; " (map (fun c => cookie_name c ++ "=" ++ cookie_value c)
                   pageCookies) in
  do authToken <-
    (if negb (truthy authToken) then
       let authToken := observe (reload_and_pause browser) authToken in
       do _ <- result (reload_and_pause browser);
       Returns authToken
     else Returns authToken);
  if truthy authToken && truthy cookies then
    let tokenPayload := parseJWT authToken in
    do exp <- get_property tokenPayload "exp";
    do iat <- get_property tokenPayload "iat";
    let authData :=
      {| authToken := authToken;
         cookies := cookies;
         expiresAt := js_mul (ToNumber exp) (of_Z 1000);
         issuedAt := js_mul (ToNumber iat) (of_Z 1000) |} in
    Returns (Some authData, storeAuth written authData store)
  else Returns (None, store).

(** [authenticate]: the browser is launched before the [try] block, and
    closed in its [finally] clause; the [catch] clause logs. *)
Definition authenticate (browser : Browser) (written : WriteOutcome) (store : Store)
    : outcome (option AuthData) * Store :=
  match launch browser with
  | Throws e => (Throws e, store)
  | Returns _ =>
      let '(authData, store') :=
        match authenticate_try browser written store with
        | Returns r => r
        | Throws _ => (None, store)
        end in
      match close browser with
      | Throws e => (Throws e, store')
      | Returns _ => (Returns authData, store')
      end
  end.

End Runtime.

Arguments requests {A} o.
Arguments result {A} o.

(** * Vocabulary of the statements *)

(** [a < b] on numbers, as a proposition. *)
Definition lt_number (a b : number) : Prop :=
  match a, b with
  | Fin p, Fin q => (p < q)%Q
  | Fin _, Inf false | Inf true, Fin _ | Inf true, Inf false => True
  | _, _ => False
  end.

(** [needle] occurs in [hay]. *)
Definition contains (needle hay : str) : Prop :=
  exists pre post, hay = pre ++ needle ++ post.

(** [hay.includes(needle)]. *)
Fixpoint includes_str (needle hay : str) : bool :=
  match strip_prefix false needle hay with
  | Some _ => true
  | None =>
      match hay with
      | [] => false
      | _ :: hay' => includes_str needle hay'
      end
  end.

(** A response with status 500 and body [boom]. *)
Definition response_500 : Response :=
  {| status := 500;
     statusText := "Internal Server Error";
     text := Returns ("boom" : str);
     json := Throws "Unexpected token b in JSON at position 0" |}.

Definition sample_workout : WorkoutData :=
  {| workout_name := "Easy run";
     workout_sport := "running";
     steps :=
       [ {| step_name := "Warm-up"; duration := "10:00"; target := "Zone 2";
            intensity := "warmup"; notes := None |};
         {| step_name := "Run"; duration := "1.0 km"; target := "Zone 4";
            intensity := "active"; notes := None |};
         {| step_name := "Recover"; duration := "2:00"; target := "Open";
            intensity := "rest"; notes := None |};
         {| step_name := "Cool-down"; duration := "10:00"; target := "Zone 2";
            intensity := "cooldown"; notes := None |} ] |}.

(** The parser the server passes: it returns the structured data as is. *)
Definition structured (workoutData : WorkoutData) : LlmParser :=
  fun _ _ _ => Returns workoutData.

Definition quoted (s : str) : str := "034"%char :: s ++ ["034"%char].

(** A response with status 200 whose body is the JSON text of an object
    with [workoutId] 12345 and [workoutName] X. *)
Definition response_200 : Response :=
  {| status := 200;
     statusText := "OK";
     text := Returns ("{" ++ quoted "workoutId" ++ ":12345,"
                          ++ quoted "workoutName" ++ ":" ++ quoted "X" ++ "}");
     json := Returns {| api_workoutId := 12345; api_workoutName := "X" |} |}.

(** A run of the browser in which every call returns, the page sends one
    request with a bearer token while it loads, and one cookie is set.  The
    token has no dot, hence no claims segment. *)
Definition browser_login : Browser :=
  {| launch := Returns tt;
     newPage := Returns tt;
     setUserAgent := Returns tt;
     evaluateOnNewDocument := Returns tt;
     setViewport := Returns tt;
     setRequestInterception := Returns tt;
     goto := {| requests := [None; Some ("Bearer abc" : str)];
                result := Returns tt |};
     waitForFunction := {| requests := []; result := Returns tt |};
     page_cookies :=
       {| requests := [];
          result := Returns [ {| cookie_name := "SESSION";
                                 cookie_value := "1" |} ] |};
     reload_and_pause := {| requests := []; result := Returns tt |};
     close := Returns tt |}.

(** The same run, except that the login is not completed in five minutes. *)
Definition browser_timeout : Browser :=
  {| launch := Returns tt;
     newPage := Returns tt;
     setUserAgent := Returns tt;
     evaluateOnNewDocument := Returns tt;
     setViewport := Returns tt;
     setRequestInterception := Returns tt;
     goto := {| requests := [None]; result := Returns tt |};
     waitForFunction :=
       {| requests := [];
          result := Throws "Waiting failed: 300000ms exceeded" |};
     page_cookies := {| requests := []; result := Returns [] |};
     reload_and_pause := {| requests := []; result := Returns tt |};
     close := Returns tt |}.

(** A run in which the browser cannot be started. *)
Definition browser_launch_fails : Browser :=
  {| launch := Throws "Failed to launch the browser process!";
     newPage := Returns tt;
     setUserAgent := Returns tt;
     evaluateOnNewDocument := Returns tt;
     setViewport := Returns tt;
     setRequestInterception := Returns tt;
     goto := {| requests := []; result := Returns tt |};
     waitForFunction := {| requests := []; result := Returns tt |};
     page_cookies := {| requests := []; result := Returns [] |};
     reload_and_pause := {| requests := []; result := Returns tt |};
     close := Returns tt |}.

(** Stand-ins for the two platform functions, for running the model: a
    decoder that returns its input and a parser that rejects every text. *)
Definition plain_decode : str -> str := fun s => s.

Definition rejecting_parse : str -> outcome json_value :=
  fun _ => Throws "Unexpected token in JSON at position 0".

(** *** Direct scanners for the four patterns

    What each pattern finds at the start of a string, written without the
    matcher; they are proved equal to the matcher on the pattern. *)

Definition at_least (min : nat) (s : str) : bool :=
  (min <=? List.length s)%nat.

(** [Zone], blanks, digits: the digits. *)
Definition zone_at (s : str) : option captures :=
  match strip_prefix true "Zone" s with
  | Some r1 =>
      if at_least 1 (take_while is_space r1) then
        let r2 := drop_while is_space r1 in
        if at_least 1 (take_while is_digit r2)
        then Some [(1%nat, take_while is_digit r2)]
        else None
      else None
  | None => None
  end.

(** Digits, optional blanks, [BPM]: the digits. *)
Definition bpm_at (s : str) : option captures :=
  if at_least 1 (take_while is_digit s) then
    match strip_prefix true "BPM" (drop_while is_space (drop_while is_digit s)) with
    | Some _ => Some [(1%nat, take_while is_digit s)]
    | None => None
    end
  else None.

(** Digits, a colon, digits, [/km]: the two runs of digits. *)
Definition pace_at (s : str) : option captures :=
  if at_least 1 (take_while is_digit s) then
    match strip_prefix true ":" (drop_while is_digit s) with
    | Some r1 =>
        if at_least 1 (take_while is_digit r1) then
          match strip_prefix true "/km" (drop_while is_digit r1) with
          | Some _ => Some [(2%nat, take_while is_digit r1);
                            (1%nat, take_while is_digit s)]
          | None => None
          end
        else None
    | None => None
    end
  else None.

(** Digits and dots, optional blanks, [km] or else [m]: the run and the
    unit as written. *)
Definition distance_at (s : str) : option captures :=
  if at_least 1 (take_while is_digit_or_dot s) then
    let r := drop_while is_space (drop_while is_digit_or_dot s) in
    match strip_prefix true "km" r with
    | Some _ => Some [(2%nat, firstn 2 r); (1%nat, take_while is_digit_or_dot s)]
    | None =>
        match strip_prefix true "m" r with
        | Some _ => Some [(2%nat, firstn 1 r);
                          (1%nat, take_while is_digit_or_dot s)]
        | None => None
        end
    end
  else None.

(** The first suffix of [s], from the left, on which [f] finds something. *)
Fixpoint first_match (f : str -> option captures) (s : str) : option captures :=
  match f s with
  | Some caps => Some caps
  | None =>
      match s with
      | [] => None
      | _ :: s' => first_match f s'
      end
  end.

(** The first letters of the literals of the patterns: no blank, digit or
    dot equals one of them, whatever the case. *)
Definition starts_word (c : ascii) : bool :=
  chr_eqb true "B" c || chr_eqb true "k" c || chr_eqb true "m" c
  || chr_eqb true ":" c || chr_eqb true "/" c.

(** Every character of [s] is in the class [f]. *)
Definition all (f : ascii -> bool) (s : str) : Prop := forallb f s = true.

(** [s] does not start with a character of the class [f]. *)
Definition no_more (f : ascii -> bool) (s : str) : Prop :=
  match s with
  | c :: _ => f c = false
  | [] => True
  end.

(** [a] and [b] are the same text, letter case apart. *)
Definition same_text (a b : str) : Prop := map upper a = map upper b.

(** [s] starts with [Zone], blanks and the integer [ds]. *)
Definition zone_here (s ds : str) : Prop :=
  exists z ws post,
    s = z ++ ws ++ ds ++ post
    /\ same_text z "Zone"
    /\ ws <> [] /\ all is_space ws
    /\ ds <> [] /\ all is_digit ds.

(** [s] starts with the integer [ds], optional blanks and [BPM]. *)
Definition bpm_here (s ds : str) : Prop :=
  exists ws b post,
    s = ds ++ ws ++ b ++ post
    /\ ds <> [] /\ all is_digit ds
    /\ all is_space ws
    /\ same_text b "BPM".

(** [s] starts with a pace [mm:ss/km]. *)
Definition pace_here (s mm ss : str) : Prop :=
  exists u post,
    s = mm ++ ":" ++ ss ++ u ++ post
    /\ mm <> [] /\ all is_digit mm
    /\ ss <> [] /\ all is_digit ss
    /\ same_text u "/km".

(** [s] starts with the number [num] (digits and dots), optional blanks and
    the unit [u], which is [km] or [m] in some letter case. *)
Definition distance_here (s num u : str) : Prop :=
  exists ws post,
    s = num ++ ws ++ u ++ post
    /\ num <> [] /\ all is_digit_or_dot num
    /\ all is_space ws
    /\ (same_text u "km" \/ same_text u "m").

Definition contains_zone (t : str) : Prop :=
  exists pre s ds, t = pre ++ s /\ zone_here s ds.

Definition contains_bpm (t : str) : Prop :=
  exists pre s ds, t = pre ++ s /\ bpm_here s ds.

Definition contains_pace (t : str) : Prop :=
  exists pre s mm ss, t = pre ++ s /\ pace_here s mm ss.

Definition contains_distance (t : str) : Prop :=
  exists pre s num u, t = pre ++ s /\ distance_here s num u.

(** The meters [parseDuration] computes from a number and a unit. *)
Definition meters (num u : str) : number :=
  if str_eqb (toLowerCase u) "km"
  then js_mul (parseFloat num) (of_Z 1000)
  else parseFloat num.




(** * Further vocabulary *)

(** The names every object inherits from [Object.prototype]: a table read
    at one of them finds the inherited member, not [undefined]. *)
Definition inherited_keys : list str :=
  [ "constructor" : str; "hasOwnProperty" : str; "isPrototypeOf" : str;
    "propertyIsEnumerable" : str; "toLocaleString" : str; "toString" : str;
    "valueOf" : str; "__proto__" : str; "__defineGetter__" : str;
    "__defineSetter__" : str; "__lookupGetter__" : str;
    "__lookupSetter__" : str ].

(** [s.toUpperCase()]. *)
Definition toUpperCase (s : str) : str := map upper s.


(** A response with status 401 and a readable body. *)
Definition response_401 : Response :=
  {| status := 401;
     statusText := "Unauthorized";
     text := Returns ("expired" : str);
     json := Throws "Unexpected token e in JSON at position 0" |}.

(** A response with status 401 whose body cannot be read. *)
Definition response_401_unreadable : Response :=
  {| status := 401;
     statusText := "Unauthorized";
     text := Throws "Premature close";
     json := Throws "Premature close" |}.

(** A step whose intensity is none of the four of the table. *)
Definition tempo_step : WorkoutStep :=
  {| step_name := "Tempo"; duration := "20:00"; target := "Zone 3";
     intensity := "tempo"; notes := None |}.

(** A workout whose sport is none of the three of the table. *)
Definition rowing_workout : WorkoutData :=
  {| workout_name := "Row"; workout_sport := "rowing"; steps := [tempo_step] |}.

(** ** The rest of the credential manager *)

(** The first request, in order, whose [authorization] header the request
    handler accepts. *)
Fixpoint first_bearer (reqs : list (option str)) : option str :=
  match reqs with
  | [] => None
  | Some h :: reqs' =>
      if truthy h && startsWith "Bearer " h then Some h else first_bearer reqs'
  | None :: reqs' => first_bearer reqs'
  end.

(** The requests of a run, in the order of the calls during which the
    handler is installed. *)
Definition requests_before_reload (browser : Browser) : list (option str) :=
  requests (goto browser) ++ requests (waitForFunction browser)
    ++ requests (page_cookies browser).

Definition requests_of_run (browser : Browser) : list (option str) :=
  requests_before_reload browser ++ requests (reload_and_pause browser).

Definition throws {A : Type} (x : outcome A) : Prop :=
  exists e : str, x = Throws e.

(** One of the calls that [authenticate] awaits in its [try] block throws:
    the page cannot be set up, the navigation fails, the login is not
    completed in time, the cookies cannot be read, or the reload fails, the
    reload being made when no token was captured before it. *)
Definition step_fails (browser : Browser) : Prop :=
  throws (newPage browser)
  \/ throws (setUserAgent browser)
  \/ throws (evaluateOnNewDocument browser)
  \/ throws (setViewport browser)
  \/ throws (setRequestInterception browser)
  \/ throws (result (goto browser))
  \/ throws (result (waitForFunction browser))
  \/ throws (result (page_cookies browser))
  \/ (first_bearer (requests_before_reload browser) = None
      /\ throws (result (reload_and_pause browser))).

(** The run [browser] with another outcome of the reload. *)
Definition with_reload (browser : Browser) (r : Observed unit) : Browser :=
  {| launch := launch browser;
     newPage := newPage browser;
     setUserAgent := setUserAgent browser;
     evaluateOnNewDocument := evaluateOnNewDocument browser;
     setViewport := setViewport browser;
     setRequestInterception := setRequestInterception browser;
     goto := goto browser;
     waitForFunction := waitForFunction browser;
     page_cookies := page_cookies browser;
     reload_and_pause := r;
     close := close browser |}.

(** A run that captures a token of three segments. *)
Definition browser_jwt : Browser :=
  {| launch := Returns tt;
     newPage := Returns tt;
     setUserAgent := Returns tt;
     evaluateOnNewDocument := Returns tt;
     setViewport := Returns tt;
     setRequestInterception := Returns tt;
     goto := {| requests := [Some ("Basic xyz" : str)]; result := Returns tt |};
     waitForFunction :=
       {| requests := [None; Some ("Bearer hhh.ppp.sss" : str);
                       Some ("Bearer other.token.here" : str)];
          result := Returns tt |};
     page_cookies :=
       {| requests := [];
          result := Returns [ {| cookie_name := "SESSION"; cookie_value := "1" |};
                              {| cookie_name := "JWT_WEB"; cookie_value := "x" |} ] |};
     reload_and_pause := {| requests := []; result := Throws "Navigation failed" |};
     close := Returns tt |}.

(** Stand-ins for [JSON.parse]: one that reads every text as claims with
    [exp] 1700000300 and [iat] 1700000000, one that reads every text as
    [null], and one that reads every text as an object without claims. *)
Definition claims_parse : str -> outcome json_value :=
  fun _ => Returns (JObject [ ("iat" : str, JNumber (of_Z 1700000000));
                              ("exp" : str, JNumber (of_Z 1700000300)) ]).

Definition null_parse : str -> outcome json_value := fun _ => Returns JNull.

Definition empty_object_parse : str -> outcome json_value :=
  fun _ => Returns (JObject []).

Section AuthFile.

(** [JSON.parse] on the text of [auth.json], its result read at the declared
    type [AuthData | null], and [JSON.stringify] on a record. *)
Variable parse_stored : str -> outcome (option AuthData).
Variable stringify_auth : AuthData -> str.

(** The file [auth.json]: its text, or nothing when there is no file. *)
Definition AuthFile : Type := option str.

Definition loadStoredAuth (file : AuthFile) : option AuthData :=
  match file with
  | None => None
  | Some data =>
      match parse_stored data with
      | Returns stored => stored
      | Throws _ => None
      end
  end.

(** [getValidAuth], with [now] the value of [Date.now()]. *)
Definition getValidAuth (file : AuthFile) (now : Z) : option AuthData :=
  match loadStoredAuth file with
  | Some stored => if isTokenValid stored now then Some stored else None
  | None => None
  end.

(** [storeAuth] on the text of the file. *)
Definition storeAuth_file (written : WriteOutcome) (authData : AuthData)
    (file : AuthFile) : AuthFile :=
  match written with
  | Written => Some (stringify_auth authData)
  | Refused => file
  | Cut n => Some (firstn n (removelast (stringify_auth authData)))
  end.

(** [clearAuth]: an existing file is overwritten with the empty text.  Here
    the file is empty as soon as it is open, whether the call then returns
    or throws: [write_ok] is false when the file could not be opened. *)
Definition clearAuth (write_ok : bool) (file : AuthFile) : AuthFile :=
  match file with
  | Some _ => if write_ok then Some [] else file
  | None => None
  end.

End AuthFile.

(** Stand-ins for the parser and the printer of stored records, for running
    the model: the text is the expiry in milliseconds as a decimal numeral,
    and the other fields are fixed. *)
Definition expiry_parse : str -> outcome (option AuthData) :=
  fun data =>
    match data with
    | [] => Throws "Unexpected end of JSON input"
    | _ => if forallb is_digit data
           then Returns (Some {| authToken := "Bearer t"; cookies := "a=b";
                                 expiresAt := of_Z (digits_value data);
                                 issuedAt := of_Z 0 |})
           else Throws "Unexpected token in JSON at position 0"
    end.

Definition expiry_stringify : AuthData -> str :=
  fun authData =>
    match expiresAt authData with
    | Fin q => Z_toString (Qnum q)
    | _ => "null"
    end.

Definition sample_auth : AuthData :=
  {| authToken := "Bearer t"; cookies := "a=b";
     expiresAt := of_Z 1700000300000; issuedAt := of_Z 0 |}.

(** The same two with the text in braces, as the text of a record is: a part
    of the text that lacks the closing brace is rejected. *)
Definition braced_stringify : AuthData -> str :=
  fun authData => "{" ++ expiry_stringify authData ++ "}".

Definition braced_parse : str -> outcome (option AuthData) :=
  fun data =>
    match data with
    | "{"%char :: rest =>
        match rev rest with
        | "}"%char :: body => expiry_parse (rev body)
        | _ => Throws "Unexpected end of JSON input"
        end
    | _ => Throws "Unexpected token in JSON at position 0"
    end.

(** All the steps of a payload, segment after segment. *)
Definition steps_of (p : Payload) : list StepData :=
  flat_map workoutSteps (workoutSegments p).

(** The workout [workoutData] with the steps [more] added at the end. *)
Definition with_more_steps (workoutData : WorkoutData) (more : list WorkoutStep)
    : WorkoutData :=
  {| workout_name := workout_name workoutData;
     workout_sport := workout_sport workoutData;
     steps := steps workoutData ++ more |}.

(** * Properties *)

(** ** Numbers *)

Lemma Qred_inject_Z (z : Z) : Qred (inject_Z z) = inject_Z z.
Proof.
  apply Qred_identity. simpl. apply Z.gcd_1_r.
Qed.

Lemma fin_inject_Z (q : Q) (z : Z) : (q == inject_Z z)%Q -> fin q = of_Z z.
Proof.
  intros H. unfold fin, of_Z. f_equal.
  rewrite <- (Qred_inject_Z z). now apply Qred_complete.
Qed.

Lemma js_add_of_Z (a b : Z) : js_add (of_Z a) (of_Z b) = of_Z (a + b).
Proof.
  simpl. apply fin_inject_Z. now rewrite inject_Z_plus.
Qed.

Lemma js_mul_of_Z (a b : Z) : js_mul (of_Z a) (of_Z b) = of_Z (a * b).
Proof.
  simpl. apply fin_inject_Z. now rewrite inject_Z_mult.
Qed.

Lemma js_lt_of_Z (a b : Z) : js_lt (of_Z a) (of_Z b) = (a <? b)%Z.
Proof.
  simpl. unfold Qltb, Qcompare, Z.ltb. simpl. now rewrite !Z.mul_1_r.
Qed.

(** Every integer up to 2^53 in size is a value of binary64. *)
Lemma binary64_of_Z (z : Z) : (Z.abs z <= 2 ^ 53)%Z -> binary64 (of_Z z).
Proof.
  intros Hz. destruct (Z.eq_dec (Z.abs z) (2 ^ 53)) as [Habs | Habs].
  - exists (z / 2)%Z, 1%Z.
    assert (Hcases : z = (2 ^ 53)%Z \/ z = (- 2 ^ 53)%Z) by lia.
    destruct Hcases as [-> | ->];
      (split; [reflexivity |]; split; [lia | reflexivity]).
  - exists z, 0%Z. split; [lia |]. split; [lia |].
    symmetry. apply fin_inject_Z. simpl. apply Qmult_1_r.
Qed.

(** ** The validity check *)

(** C4: a credential is valid exactly when [now] plus the 30-second buffer is
    strictly below its expiry; for an expiry that is a whole number of
    milliseconds this is [now + 30000 < expiresAt], so an expiry 29 seconds
    (or exactly 30 seconds) ahead is invalid and one 31 seconds ahead is
    valid. *)
Theorem isTokenValid_buffer :
  (forall (a : AuthData) (now : Z),
      isTokenValid a now = true <->
      lt_number (of_Z (now + 30 * 1000)) (expiresAt a))
  /\ (forall (tok ck : str) (iat : number) (e now : Z),
      isTokenValid {| authToken := tok; cookies := ck;
                      expiresAt := of_Z e; issuedAt := iat |} now = true <->
      (now + 30 * 1000 < e)%Z)
  /\ (forall (tok ck : str) (iat : number) (now : Z),
      isTokenValid {| authToken := tok; cookies := ck;
                      expiresAt := of_Z (now + 29 * 1000);
                      issuedAt := iat |} now = false
      /\ isTokenValid {| authToken := tok; cookies := ck;
                         expiresAt := of_Z (now + 30 * 1000);
                         issuedAt := iat |} now = false
      /\ isTokenValid {| authToken := tok; cookies := ck;
                         expiresAt := of_Z (now + 31 * 1000);
                         issuedAt := iat |} now = true).
Proof.
  assert (Hgen : forall a now,
             isTokenValid a now = js_lt (of_Z (now + 30 * 1000)) (expiresAt a)).
  { intros a now. unfold isTokenValid.
    now rewrite js_mul_of_Z, js_add_of_Z. }
  split; [| split].
  - intros a now. rewrite Hgen.
    destruct (expiresAt a) as [| [|] | q]; simpl; try easy.
    unfold Qltb. rewrite Qlt_alt.
    destruct (inject_Z (now + 30000) ?= q)%Q; split; congruence.
  - intros tok ck iat e now. rewrite Hgen. cbn [expiresAt].
    rewrite js_lt_of_Z. apply Z.ltb_lt.
  - intros tok ck iat now. rewrite !Hgen. cbn [expiresAt].
    rewrite !js_lt_of_Z.
    repeat split; [apply Z.ltb_ge | apply Z.ltb_ge | apply Z.ltb_lt]; lia.
Qed.

(** ** Step order in the payload *)

Lemma map_indexed_length {X Y : Type} (f : X -> nat -> Y) (k : nat) (xs : list X) :
  List.length (map_indexed f k xs) = List.length xs.
Proof.
  revert k. induction xs as [| x xs IH]; intros k; simpl; [easy |].
  now rewrite IH.
Qed.

Lemma map_indexed_nth_error {X Y : Type} (f : X -> nat -> Y) (xs : list X) :
  forall (k i : nat) (x : X),
    nth_error xs i = Some x ->
    nth_error (map_indexed f k xs) i = Some (f x (k + i)).
Proof.
  induction xs as [| y xs IH]; intros k i x H.
  - destruct i; discriminate.
  - destruct i as [| i]; simpl in *.
    + injection H as ->. now rewrite Nat.add_0_r.
    + rewrite (IH (S k) i x H). f_equal. f_equal. lia.
Qed.

Lemma convertWorkoutStep_order (step : WorkoutStep) (n : nat) :
  stepOrder (convertWorkoutStep step n) = n
  /\ stepId (convertWorkoutStep step n) = n.
Proof.
  unfold convertWorkoutStep.
  destruct (parseDuration (duration step)), (parseTarget (target step)).
  now split.
Qed.

(** C6: the payload has one segment whose steps are as many as the input
    steps, and the step at the 1-based position [i] of the output is the
    conversion of the input step at position [i], with step order [i] and a
    step id equal to its step order. *)
Theorem convertToGarminPayload_step_order :
  forall (workoutData : WorkoutData) (i : nat) (step : WorkoutStep),
    (1 <= i)%nat ->
    nth_error (steps workoutData) (i - 1) = Some step ->
    exists segment out,
      workoutSegments (convertToGarminPayload workoutData) = [segment]
      /\ List.length (workoutSteps segment) = List.length (steps workoutData)
      /\ nth_error (workoutSteps segment) (i - 1) = Some out
      /\ out = convertWorkoutStep step i
      /\ stepOrder out = i
      /\ stepId out = stepOrder out.
Proof.
  intros w i step Hi Hnth.
  eexists. exists (convertWorkoutStep step i).
  split; [reflexivity |]. cbn [workoutSteps].
  split; [apply map_indexed_length |].
  split.
  - rewrite (map_indexed_nth_error _ _ 0 (i - 1) step Hnth).
    do 2 f_equal. lia.
  - destruct (convertWorkoutStep_order step i) as [-> ->]. auto.
Qed.

(** The second of the four steps of [sample_workout]. *)
Lemma convertToGarminPayload_step_order_witness :
  exists segment out,
    workoutSegments (convertToGarminPayload sample_workout) = [segment]
    /\ List.length (workoutSteps segment) = 4%nat
    /\ nth_error (workoutSteps segment) 1 = Some out
    /\ out = convertWorkoutStep
               {| step_name := "Run"; duration := "1.0 km"; target := "Zone 4";
                  intensity := "active"; notes := None |} 2
    /\ stepOrder out = 2%nat
    /\ stepId out = stepOrder out.
Proof.
  exact (convertToGarminPayload_step_order sample_workout 2 _
           (le_S 1 1 (le_n 1)) eq_refl).
Defined.

(** ** Interpretation of the HTTP response *)

Lemma chr_eqb_refl (icase : bool) (c : ascii) : chr_eqb icase c c = true.
Proof.
  destruct icase; apply Ascii.eqb_refl.
Qed.

Lemma strip_prefix_app (icase : bool) (p rest : str) :
  strip_prefix icase p (p ++ rest) = Some rest.
Proof.
  induction p as [| c p IH]; simpl; [easy |].
  now rewrite chr_eqb_refl.
Qed.

Lemma includes_str_unfold (needle hay : str) :
  includes_str needle hay =
  match strip_prefix false needle hay with
  | Some _ => true
  | None => match hay with [] => false | _ :: hay' => includes_str needle hay' end
  end.
Proof.
  now destruct hay.
Qed.

Lemma contains_includes_str (needle hay : str) :
  contains needle hay -> includes_str needle hay = true.
Proof.
  intros (pre & post & ->).
  induction pre as [| c pre IH]; rewrite includes_str_unfold.
  - cbn [app]. now rewrite strip_prefix_app.
  - cbn [app]. rewrite IH.
    now destruct (strip_prefix false needle (c :: pre ++ needle ++ post)).
Qed.

(** C8: when the parser returned the structured workout, the request was
    answered with a 2xx status and the body parses to an identifier and a
    name, the result is a success whose identifier is the decimal numeral of
    the returned one, whose name is the returned name, and whose link is the
    workout path followed by that numeral, hence contains it. *)
Theorem createGarminWorkout_success :
  forall (description authToken cookies sport : str) (customName : option str)
         (llmParser : LlmParser) (workoutData : WorkoutData)
         (fetch : Request -> outcome Response)
         (response : Response) (returnedId : Z) (returnedName : str),
    llmParser description sport customName = Returns workoutData ->
    fetch (workout_request authToken cookies sport
             (convertToGarminPayload workoutData)) = Returns response ->
    ok response = true ->
    json response = Returns {| api_workoutId := returnedId;
                               api_workoutName := returnedName |} ->
    createGarminWorkout description authToken cookies customName sport
      (Some llmParser) fetch
    = {| success := true;
         workoutId := Some (Z_toString returnedId);
         name := Some returnedName;
         url := Some ("https://connect.garmin.com/modern/workout/"
                        ++ Z_toString returnedId);
         error := None |}
    /\ contains (Z_toString returnedId)
         ("https://connect.garmin.com/modern/workout/" ++ Z_toString returnedId).
Proof.
  intros description authToken cookies sport customName llmParser workoutData
    fetch response returnedId returnedName Hparse Hfetch Hok Hjson.
  split.
  - unfold createGarminWorkout, createGarminWorkout_try.
    rewrite Hparse. cbn [bind]. rewrite Hfetch. cbn [bind].
    rewrite Hok, Hjson. reflexivity.
  - exists (list_ascii_of_string "https://connect.garmin.com/modern/workout/"), [].
    now rewrite app_nil_r.
Qed.

(** The scenario of C8: status 200, identifier 12345, name X. *)
Lemma createGarminWorkout_success_witness :
  createGarminWorkout "Easy run" "Bearer t" "a=b" None "running"
    (Some (structured sample_workout)) (fun _ => Returns response_200)
  = {| success := true;
       workoutId := Some ("12345" : str);
       name := Some ("X" : str);
       url := Some ("https://connect.garmin.com/modern/workout/12345" : str);
       error := None |}
  /\ contains "12345" "https://connect.garmin.com/modern/workout/12345".
Proof.
  exact (createGarminWorkout_success "Easy run" "Bearer t" "a=b" "running" None
           (structured sample_workout) sample_workout
           (fun _ => Returns response_200) response_200
           12345 "X" eq_refl eq_refl eq_refl eq_refl).
Defined.

(** C1, as amended: on a status that is neither 2xx nor 401, once the body
    has been read, the result is a failure whose message is [API error: ]
    followed by the status and the status text of the response; the body is
    only logged. *)
Theorem createGarminWorkout_http_error :
  forall (description authToken cookies sport : str) (customName : option str)
         (llmParser : LlmParser) (workoutData : WorkoutData)
         (fetch : Request -> outcome Response)
         (response : Response) (errorText : str),
    llmParser description sport customName = Returns workoutData ->
    fetch (workout_request authToken cookies sport
             (convertToGarminPayload workoutData)) = Returns response ->
    ok response = false ->
    status response <> 401%Z ->
    text response = Returns errorText ->
    createGarminWorkout description authToken cookies customName sport
      (Some llmParser) fetch
    = failed ("API error: " ++ Z_toString (status response) ++ " "
                ++ statusText response).
Proof.
  intros description authToken cookies sport customName llmParser workoutData
    fetch response errorText Hparse Hfetch Hok H401 Htext.
  unfold createGarminWorkout, createGarminWorkout_try.
  rewrite Hparse. cbn [bind]. rewrite Hfetch. cbn [bind].
  rewrite Hok, Htext. cbn [bind].
  apply Z.eqb_neq in H401. now rewrite H401.
Qed.

Lemma createGarminWorkout_http_error_witness :
  createGarminWorkout "Easy run" "Bearer t" "a=b" None "running"
    (Some (structured sample_workout)) (fun _ => Returns response_500)
  = failed "API error: 500 Internal Server Error".
Proof.
  refine (createGarminWorkout_http_error "Easy run" "Bearer t" "a=b" "running"
            None (structured sample_workout) sample_workout
            (fun _ => Returns response_500) response_500
            "boom" eq_refl eq_refl eq_refl _ eq_refl).
  discriminate.
Defined.

(** C1, as stated, fails: the response [response_500] has a status that is
    neither 2xx nor 401 and the body [boom], and the message of the failure
    does not contain the body. *)
Lemma createGarminWorkout_http_error_omits_body :
  ok response_500 = false
  /\ status response_500 <> 401%Z
  /\ text response_500 = Returns ("boom" : str)
  /\ ~ (exists detail : str,
          error (createGarminWorkout "Easy run" "Bearer t" "a=b" None "running"
                   (Some (structured sample_workout))
                   (fun _ => Returns response_500)) = Some detail
          /\ contains (Z_toString 500) detail
          /\ contains "boom" detail).
Proof.
  repeat split; try easy.
  intros (detail & Herr & _ & Hbody).
  injection Herr as <-.
  apply contains_includes_str in Hbody. discriminate Hbody.
Qed.

(** ** Credential acquisition *)

Lemma first_bearer_accepts (reqs : list (option str)) (h : str) :
  first_bearer reqs = Some h ->
  truthy h = true /\ startsWith "Bearer " h = true /\ In (Some h) reqs.
Proof.
  induction reqs as [| [h' |] reqs IH]; [discriminate | |];
    cbn [first_bearer In].
  - destruct (truthy h' && startsWith "Bearer " h') eqn:E.
    + intros H. injection H as <-. apply andb_prop in E as [-> ->]. auto.
    + intros H. destruct (IH H) as (? & ? & ?). auto.
  - intros H. destruct (IH H) as (? & ? & ?). auto.
Qed.

Lemma first_bearer_app (l1 l2 : list (option str)) :
  first_bearer (l1 ++ l2)
  = match first_bearer l1 with
    | Some h => Some h
    | None => first_bearer l2
    end.
Proof.
  induction l1 as [| [h |] l1 IH]; [reflexivity | |];
    cbn [app first_bearer]; [| assumption].
  now destruct (truthy h && startsWith "Bearer " h).
Qed.

(** The handler keeps the first header it accepts. *)
Lemma observe_first_bearer (reqs : list (option str)) :
  forall authToken : str,
    fold_left on_request reqs authToken
    = if truthy authToken then authToken
      else match first_bearer reqs with
           | Some h => h
           | None => authToken
           end.
Proof.
  induction reqs as [| [h |] reqs IH]; intros tok.
  - simpl. now destruct (truthy tok).
  - cbn [fold_left first_bearer on_request]. rewrite IH.
    destruct (truthy tok) eqn:Htok.
    + rewrite andb_false_r. now rewrite Htok.
    + rewrite andb_true_r.
      destruct (truthy h && startsWith "Bearer " h) eqn:E.
      * apply andb_prop in E as [-> _]. reflexivity.
      * now rewrite Htok.
  - cbn [fold_left first_bearer on_request]. apply IH.
Qed.

Lemma observe_run (browser : Browser) :
  observe (page_cookies browser)
    (observe (waitForFunction browser) (observe (goto browser) []))
  = match first_bearer (requests_before_reload browser) with
    | Some h => h
    | None => []
    end.
Proof.
  unfold observe, requests_before_reload.
  rewrite <- !fold_left_app.
  now rewrite observe_first_bearer.
Qed.

Section Acquisition.

Variable base64_decode : str -> str.
Variable JSON_parse : str -> outcome json_value.

Let run_try := authenticate_try base64_decode JSON_parse.
Let run_authenticate := authenticate base64_decode JSON_parse.

Ltac step_outcome :=
  match goal with
  | |- context [bind ?x _] =>
      let u := fresh "u" in
      let e := fresh "e" in
      destruct x as [u | e] eqn:?; cbn [bind]
  end.

(** What a run of the [try] block that produces a credential computed. *)
Lemma authenticate_try_credential :
  forall (browser : Browser) (written : WriteOutcome) (store store' : Store)
         (a : AuthData),
    run_try browser written store = Returns (Some a, store') ->
    exists exp iat,
      get_property (parseJWT base64_decode JSON_parse (authToken a)) "exp"
        = Returns exp
      /\ get_property (parseJWT base64_decode JSON_parse (authToken a)) "iat"
        = Returns iat
      /\ expiresAt a = js_mul (ToNumber exp) (of_Z 1000)
      /\ issuedAt a = js_mul (ToNumber iat) (of_Z 1000)
      /\ store' = storeAuth written a store.
Proof.
  intros browser written store store' a.
  unfold run_try, authenticate_try.
  repeat (step_outcome; [| discriminate]).
  match goal with
  | |- context [if ?c then _ else _] => destruct c
  end; [| discriminate].
  repeat (step_outcome; [| discriminate]).
  intros H. injection H as <- <-. cbn [authToken expiresAt issuedAt].
  eauto 10.
Qed.

(** What the [try] block leaves in the store. *)
Lemma authenticate_try_store :
  forall (browser : Browser) (written : WriteOutcome) (store store' : Store)
         (r : option AuthData),
    run_try browser written store = Returns (r, store') ->
    store' = match r with
             | Some a => storeAuth written a store
             | None => store
             end.
Proof.
  intros browser written store store' r.
  unfold run_try, authenticate_try.
  repeat (step_outcome; [| discriminate]).
  match goal with
  | |- context [if ?c then _ else _] => destruct c
  end.
  - repeat (step_outcome; [| discriminate]).
    intros H. now injection H as <- <-.
  - intros H. now injection H as <- <-.
Qed.

Lemma authenticate_credential_try :
  forall (browser : Browser) (written : WriteOutcome) (store store' : Store)
         (a : AuthData),
    authenticate base64_decode JSON_parse browser written store
      = (Returns (Some a), store') ->
    authenticate_try base64_decode JSON_parse browser written store
      = Returns (Some a, store').
Proof.
  intros browser written store store' a. unfold authenticate.
  destruct (launch browser); [| discriminate].
  destruct (authenticate_try _ _ browser written store) as [[r s] | msg];
    destruct (close browser); try discriminate.
  intros H. now injection H as -> ->.
Qed.

(** What the [try] block did when it produced a credential: the cookies it
    read, and the token it had after the three awaited calls, or else after
    the reload. *)
Lemma authenticate_try_capture :
  forall (browser : Browser) (written : WriteOutcome) (store store' : Store)
         (a : AuthData),
    authenticate_try base64_decode JSON_parse browser written store
      = Returns (Some a, store') ->
    exists pageCookies : list Cookie,
      result (page_cookies browser) = Returns pageCookies
      /\ cookies a
         = join "; " (map (fun c => cookie_name c ++ "=" ++ cookie_value c)
                          pageCookies)
      /\ truthy (cookies a) = true
      /\ truthy (authToken a) = true
      /\ authToken a
         = match first_bearer (requests_before_reload browser) with
           | Some h => h
           | None =>
               fold_left on_request (requests (reload_and_pause browser)) []
           end.
Proof.
  intros browser written store store' a.
  unfold authenticate_try. rewrite observe_run.
  repeat (step_outcome; [| discriminate]).
  match goal with
  | |- context [if truthy ?t && truthy ?c then _ else _] =>
      destruct (truthy t) eqn:Htok; destruct (truthy c) eqn:Hck;
      cbn [andb]; try discriminate
  end.
  repeat (step_outcome; [| discriminate]).
  intros H. injection H as <- _. cbn [authToken cookies].
  eexists. split; [reflexivity |]. split; [reflexivity |].
  split; [assumption |]. split; [assumption |].
  match goal with
  | H : (if negb (truthy ?t) then _ else _) = Returns _ |- _ =>
      revert H; destruct (first_bearer (requests_before_reload browser))
        as [h |] eqn:Hfirst
  end.
  - apply first_bearer_accepts in Hfirst as [-> _]. cbn [negb].
    intros H. now injection H.
  - cbn [truthy negb]. unfold observe.
    destruct (result (reload_and_pause browser)); cbn [bind]; [| discriminate].
    intros H. now injection H.
Qed.

Lemma authenticate_first_bearer :
  forall (browser : Browser) (written : WriteOutcome) (store store' : Store)
         (a : AuthData),
    authenticate_try base64_decode JSON_parse browser written store
      = Returns (Some a, store') ->
    first_bearer (requests_of_run browser) = Some (authToken a).
Proof.
  intros browser written store store' a Htry.
  apply authenticate_try_capture in Htry as (_ & _ & _ & _ & Htok & Hcap).
  unfold requests_of_run. rewrite first_bearer_app.
  destruct (first_bearer (requests_before_reload browser)) as [h |];
    [now rewrite Hcap |].
  rewrite observe_first_bearer in Hcap. cbn [truthy] in Hcap.
  destruct (first_bearer (requests (reload_and_pause browser))) as [h |];
    [now rewrite Hcap |].
  rewrite Hcap in Htok. discriminate Htok.
Qed.

(** A call of the [try] block that throws ends the block. *)
Lemma authenticate_try_step_fails :
  forall (browser : Browser) (written : WriteOutcome) (store : Store),
    step_fails browser -> throws (run_try browser written store).
Proof.
  intros browser written store Hfail.
  unfold run_try, authenticate_try. rewrite observe_run.
  unfold step_fails in Hfail.
  repeat match type of Hfail with
         | _ \/ _ => destruct Hfail as [[e He] | Hfail]
         end;
    [ .. | destruct Hfail as [Hnone [e He]]; rewrite Hnone ];
    rewrite He; cbn [bind truthy negb];
    repeat (step_outcome; [| eexists; reflexivity]);
    eexists; reflexivity.
Qed.

(** C2, as amended.  A failure of [puppeteer.launch] is thrown to the
    caller, and so is a failure of [browser.close].  Once the browser has
    been launched, and provided that closing it succeeds, [authenticate]
    returns, and the file changes only when a credential is returned; it
    returns [null], and leaves the file as it was, whenever a call of the
    [try] block throws (a page that cannot be set up, a navigation that
    fails, a login that times out, cookies that cannot be read, a reload
    that fails), no request carried a bearer token, or the page has no
    cookies. *)
Theorem authenticate_returns_after_launch :
  forall (browser : Browser) (written : WriteOutcome) (store : Store),
    (forall e : str,
        launch browser = Throws e ->
        run_authenticate browser written store = (Throws e, store))
    /\ (forall e : str,
           launch browser = Returns tt -> close browser = Throws e ->
           fst (run_authenticate browser written store) = Throws e)
    /\ (launch browser = Returns tt -> close browser = Returns tt ->
        (exists r : option AuthData,
            run_authenticate browser written store
            = (Returns r,
               match r with
               | Some a => storeAuth written a store
               | None => store
               end))
        /\ (step_fails browser ->
            run_authenticate browser written store = (Returns None, store))
        /\ (first_bearer (requests_of_run browser) = None ->
            run_authenticate browser written store = (Returns None, store))
        /\ (result (page_cookies browser) = Returns [] ->
            run_authenticate browser written store = (Returns None, store))).
Proof.
  intros browser written store.
  split; [| split].
  - intros e He. unfold run_authenticate, authenticate. now rewrite He.
  - intros e Hlaunch Hclose. unfold run_authenticate, authenticate.
    fold run_try. rewrite Hlaunch, Hclose.
    now destruct (run_try browser written store) as [[r store'] | msg].
  - intros Hlaunch Hclose.
    assert (Hrun : run_authenticate browser written store
                   = match run_try browser written store with
                     | Returns (r, store') => (Returns r, store')
                     | Throws _ => (Returns None, store)
                     end).
    { unfold run_authenticate, authenticate. fold run_try.
      rewrite Hlaunch, Hclose.
      now destruct (run_try browser written store) as [[r store'] | msg]. }
    assert (Hnone : (forall a store',
                        run_try browser written store
                        <> Returns (Some a, store')) ->
                    run_authenticate browser written store
                    = (Returns None, store)).
    { intros Hno. rewrite Hrun.
      destruct (run_try browser written store) as [[[a |] store'] | msg]
        eqn:Htry; [| | reflexivity].
      - now destruct (Hno a store').
      - now rewrite (authenticate_try_store _ _ _ _ _ Htry). }
    split; [| split; [| split]].
    + rewrite Hrun.
      destruct (run_try browser written store) as [[r store'] | msg] eqn:Htry.
      * exists r. now rewrite (authenticate_try_store _ _ _ _ _ Htry).
      * now exists None.
    + intros Hfail. apply Hnone. intros a store' Htry.
      destruct (authenticate_try_step_fails browser written store Hfail)
        as [msg Hmsg].
      rewrite Hmsg in Htry. discriminate Htry.
    + intros Hfirst. apply Hnone. intros a store' Htry.
      apply authenticate_first_bearer in Htry.
      rewrite Hfirst in Htry. discriminate Htry.
    + intros Hcookies. apply Hnone. intros a store' Htry.
      apply authenticate_try_capture in Htry
        as (pageCookies & Hpage & Hjoin & Hck & _).
      rewrite Hcookies in Hpage. injection Hpage as <-.
      rewrite Hjoin in Hck. discriminate Hck.
Qed.

(** C9: when [authenticate] returns a credential whose token cannot be
    decoded (the [try] block of [parseJWT] throws: no second segment, or a
    payload [JSON.parse] rejects), its expiry and its issue time are both
    [0], and the validity check rejects it at every clock reading that is
    not more than 30 seconds before the epoch. *)
Theorem authenticate_undecodable_token :
  forall (browser : Browser) (written : WriteOutcome) (store store' : Store)
         (a : AuthData) (e : str) (now : Z),
    run_authenticate browser written store = (Returns (Some a), store') ->
    parseJWT_try base64_decode JSON_parse (authToken a) = Throws e ->
    (- 30000 <= now)%Z ->
    expiresAt a = of_Z 0
    /\ issuedAt a = of_Z 0
    /\ isTokenValid a now = false.
Proof.
  intros browser written store store' a e now Hrun Hjwt Hnow.
  assert (Htry : exists s, run_try browser written store = Returns (Some a, s)).
  { revert Hrun. unfold run_authenticate, authenticate. fold run_try.
    destruct (launch browser); [| discriminate].
    destruct (run_try browser written store) as [[r s] | msg];
      destruct (close browser); try discriminate.
    intros H. injection H as -> _. now exists s. }
  destruct Htry as (s & Htry).
  apply authenticate_try_credential in Htry
    as (exp & iat & Hexp & Hiat & HexpiresAt & HissuedAt & _).
  unfold parseJWT in Hexp, Hiat. rewrite Hjwt in Hexp, Hiat.
  cbn in Hexp, Hiat.
  injection Hexp as <-. injection Hiat as <-.
  assert (H0 : js_mul (ToNumber (Some (JNumber (of_Z 0)))) (of_Z 1000) = of_Z 0)
    by reflexivity.
  rewrite H0 in HexpiresAt, HissuedAt.
  repeat split; try assumption.
  unfold isTokenValid. rewrite HexpiresAt, js_mul_of_Z, js_add_of_Z, js_lt_of_Z.
  apply Z.ltb_ge. lia.
Qed.

End Acquisition.

(** A login that times out: [authenticate] returns [null] and the file is
    as it was. *)
Lemma authenticate_returns_after_launch_witness :
  step_fails browser_timeout
  /\ authenticate plain_decode rejecting_parse browser_timeout Written
       (Some sample_auth)
     = (Returns None, Some sample_auth).
Proof.
  assert (Hfail : step_fails browser_timeout).
  { do 6 right. left. now exists "Waiting failed: 300000ms exceeded". }
  split; [exact Hfail |].
  exact (proj1 (proj2 (proj2 (proj2
           (authenticate_returns_after_launch plain_decode rejecting_parse
              browser_timeout Written (Some sample_auth)))
           eq_refl eq_refl)) Hfail).
Defined.

(** A login that captures the token [Bearer abc], which has no claims
    segment. *)
Lemma authenticate_undecodable_token_witness :
  exists a : AuthData,
    authenticate plain_decode rejecting_parse browser_login Written None
      = (Returns (Some a), Some a)
    /\ authToken a = "Bearer abc"
    /\ expiresAt a = of_Z 0
    /\ issuedAt a = of_Z 0
    /\ isTokenValid a 1700000000000 = false.
Proof.
  eexists. split; [reflexivity |]. split; [reflexivity |].
  refine (authenticate_undecodable_token plain_decode rejecting_parse
            browser_login Written None _ _ _ 1700000000000 eq_refl eq_refl _).
  discriminate.
Defined.

(** C2, as stated, fails: when the browser cannot be launched the error is
    thrown to the caller of [authenticate]. *)
Lemma authenticate_launch_failure_throws :
  fst (authenticate plain_decode rejecting_parse browser_launch_fails Written None)
  = Throws "Failed to launch the browser process!"
  /\ ~ (exists r : option AuthData,
          fst (authenticate plain_decode rejecting_parse browser_launch_fails
                 Written None) = Returns r).
Proof.
  split; [reflexivity |].
  intros [r Hr]. discriminate Hr.
Qed.

(** ** The matcher *)

Lemma take_drop_while (f : ascii -> bool) (s : str) :
  take_while f s ++ drop_while f s = s.
Proof.
  induction s as [| c s IH]; simpl; [easy |].
  destruct (f c); simpl; [now rewrite IH | easy].
Qed.

Lemma firstn_take_while (f : ascii -> bool) (s : str) :
  firstn (List.length s - List.length (drop_while f s)) s = take_while f s.
Proof.
  rewrite <- (take_drop_while f s) at 1 3.
  rewrite length_app, Nat.add_sub.
  now rewrite firstn_app, Nat.sub_diag, firstn_all, app_nil_r.
Qed.

Section MatcherFacts.

Variable A : Type.

(** A continuation that fails on every string starting in the class lets
    the repetition stop only at the end of the longest run. *)
Lemma rep_blocked (cls : ascii -> bool) (k : cont A) :
  (forall c s caps, cls c = true -> k (c :: s) caps = None) ->
  forall (s : str) (min : nat) (caps : captures),
    rep A cls min s caps k =
    if at_least min (take_while cls s) then k (drop_while cls s) caps else None.
Proof.
  intros Hk. unfold at_least.
  induction s as [| c s IH]; intros min caps.
  - simpl. now destruct min.
  - simpl. destruct (cls c) eqn:Hc.
    + rewrite IH. cbn [List.length].
      destruct min as [| min]; cbn [Nat.pred Nat.leb].
      * destruct (k (drop_while cls s) caps) eqn:Hd; [easy |].
        now apply Hk.
      * now destruct (min <=? List.length (take_while cls s))%nat,
                     (k (drop_while cls s) caps).
    + now destruct min.
Qed.

(** A continuation that succeeds at the end of the longest run is called
    there first. *)
Lemma rep_greedy (cls : ascii -> bool) (k : cont A) :
  forall (s : str) (min : nat) (caps : captures) (a : A),
    k (drop_while cls s) caps = Some a ->
    rep A cls min s caps k =
    if at_least min (take_while cls s) then Some a else None.
Proof.
  unfold at_least.
  induction s as [| c s IH]; intros min caps a Ha.
  - simpl in *. rewrite Ha. now destruct min.
  - simpl in *. destruct (cls c) eqn:Hc.
    + rewrite (IH _ _ _ Ha). cbn [List.length].
      destruct min as [| min]; cbn [Nat.pred Nat.leb]; [easy |].
      now destruct (min <=? List.length (take_while cls s))%nat.
    + rewrite Ha. now destruct min.
Qed.

End MatcherFacts.

Lemma str_match_first_match (icase : bool) (r : regex)
    (f : str -> option captures) :
  (forall s, run icase captures r s [] (fun _ caps => Some caps) = f s) ->
  forall t, str_match icase r t = first_match f t.
Proof.
  intros H. induction t as [| c t IH]; simpl; rewrite H.
  - now destruct (f []).
  - now rewrite IH.
Qed.

(** *** Characters *)

Ltac ascii_cases c :=
  destruct c as [[|] [|] [|] [|] [|] [|] [|] [|]];
  try discriminate; try reflexivity.

Lemma space_not_digit (c : ascii) : is_space c = true -> is_digit c = false.
Proof. ascii_cases c. Qed.

Lemma space_not_digit_or_dot (c : ascii) :
  is_space c = true -> is_digit_or_dot c = false.
Proof. ascii_cases c. Qed.

Lemma digit_not_space (c : ascii) : is_digit c = true -> is_space c = false.
Proof. ascii_cases c. Qed.

Lemma digit_or_dot_not_space (c : ascii) :
  is_digit_or_dot c = true -> is_space c = false.
Proof. ascii_cases c. Qed.

Lemma space_not_word (c : ascii) : is_space c = true -> starts_word c = false.
Proof. ascii_cases c. Qed.

Lemma digit_or_dot_not_word (c : ascii) :
  is_digit_or_dot c = true -> starts_word c = false.
Proof. ascii_cases c. Qed.

Lemma digit_is_digit_or_dot (c : ascii) :
  is_digit c = true -> is_digit_or_dot c = true.
Proof.
  unfold is_digit_or_dot. now intros ->.
Qed.

(** *** The four patterns, run by the matcher, are the direct scanners *)

Lemma not_word (c : ascii) :
  starts_word c = false ->
  chr_eqb true "B" c = false /\ chr_eqb true "k" c = false
  /\ chr_eqb true "m" c = false /\ chr_eqb true ":" c = false
  /\ chr_eqb true "/" c = false.
Proof.
  unfold starts_word. intros H.
  repeat (apply orb_false_elim in H; destruct H as [H ?]). auto.
Qed.

Ltac no_word Hc :=
  first [ apply space_not_word in Hc
        | apply digit_or_dot_not_word in Hc
        | apply digit_is_digit_or_dot, digit_or_dot_not_word in Hc ];
  apply not_word in Hc;
  destruct Hc as (HB & Hk & Hm & Hcolon & Hslash);
  cbn [run rep list_ascii_of_string strip_prefix];
  rewrite ?HB, ?Hk, ?Hm, ?Hcolon, ?Hslash.

Lemma zone_regex_run (s : str) :
  run true captures zone_regex s [] (fun _ caps => Some caps) = zone_at s.
Proof.
  unfold zone_regex, zone_at. cbn [run].
  destruct (strip_prefix true "Zone" s) as [r1 |]; [| easy].
  rewrite rep_blocked.
  - destruct (at_least 1 (take_while is_space r1)); [| easy].
    erewrite rep_greedy by reflexivity.
    now rewrite firstn_take_while.
  - intros c t caps Hc. cbn [rep]. now rewrite (space_not_digit c Hc).
Qed.

Lemma bpm_regex_run (s : str) :
  run true captures bpm_regex s [] (fun _ caps => Some caps) = bpm_at s.
Proof.
  unfold bpm_regex, bpm_at. cbn [run].
  rewrite rep_blocked.
  - destruct (at_least 1 (take_while is_digit s)); [| easy].
    rewrite rep_blocked.
    + cbn [at_least Nat.leb]. rewrite firstn_take_while.
      now destruct (strip_prefix true "BPM"
                      (drop_while is_space (drop_while is_digit s))).
    + intros c t caps Hc. now no_word Hc.
  - intros c t caps Hc. cbn [rep]. rewrite (digit_not_space c Hc).
    now no_word Hc.
Qed.

Lemma pace_regex_run (s : str) :
  run true captures pace_regex s [] (fun _ caps => Some caps) = pace_at s.
Proof.
  unfold pace_regex, pace_at. cbn [run].
  rewrite rep_blocked.
  - destruct (at_least 1 (take_while is_digit s)); [| easy].
    destruct (strip_prefix true ":" (drop_while is_digit s)) as [r1 |]; [| easy].
    rewrite rep_blocked.
    + destruct (at_least 1 (take_while is_digit r1)); [| easy].
      rewrite !firstn_take_while.
      now destruct (strip_prefix true "/km" (drop_while is_digit r1)).
    + intros c t caps Hc. now no_word Hc.
  - intros c t caps Hc. now no_word Hc.
Qed.

Lemma strip_prefix_split (icase : bool) (p s rest : str) :
  strip_prefix icase p s = Some rest ->
  s = firstn (List.length p) s ++ rest
  /\ List.length s = (List.length p + List.length rest)%nat.
Proof.
  revert s. induction p as [| a p IH]; intros s H.
  - injection H as ->. now split.
  - destruct s as [| c s]; [discriminate |]. simpl in H.
    destruct (chr_eqb icase a c); [| discriminate].
    destruct (IH s H) as [Hs Hlen]. cbn [List.length firstn app].
    split; [now rewrite <- Hs | now rewrite Hlen].
Qed.

Lemma strip_prefix_length (icase : bool) (p s rest : str) :
  strip_prefix icase p s = Some rest ->
  (List.length s - List.length rest)%nat = List.length p.
Proof.
  intros H. apply strip_prefix_split in H as [_ H]. lia.
Qed.

Lemma distance_regex_run (s : str) :
  run true captures distance_regex s [] (fun _ caps => Some caps)
  = distance_at s.
Proof.
  unfold distance_regex, distance_at. cbn [run].
  rewrite rep_blocked.
  - destruct (at_least 1 (take_while is_digit_or_dot s)); [| easy].
    rewrite rep_blocked.
    + cbn [at_least Nat.leb]. rewrite firstn_take_while.
      set (r := drop_while is_space (drop_while is_digit_or_dot s)).
      destruct (strip_prefix true "km" r) as [rest |] eqn:Hkm.
      * now rewrite (strip_prefix_length _ _ _ _ Hkm).
      * destruct (strip_prefix true "m" r) as [rest |] eqn:Hm; [| easy].
        now rewrite (strip_prefix_length _ _ _ _ Hm).
    + intros c t caps Hc. now no_word Hc.
  - intros c t caps Hc. cbn [rep]. rewrite (digit_or_dot_not_space c Hc).
    now no_word Hc.
Qed.

(** *** Runs of a class *)

Lemma take_while_app (f : ascii -> bool) (run rest : str) :
  all f run ->
  take_while f (run ++ rest) = run ++ take_while f rest
  /\ drop_while f (run ++ rest) = drop_while f rest.
Proof.
  unfold all. induction run as [| c run IH]; intros H; [easy |].
  simpl in *. apply andb_prop in H as [-> H].
  destruct (IH H) as [-> ->]. easy.
Qed.

Lemma take_while_no_more (f : ascii -> bool) (s : str) :
  no_more f s -> take_while f s = [] /\ drop_while f s = s.
Proof.
  destruct s as [| c s]; simpl; [easy |]. now intros ->.
Qed.

Lemma take_while_all (f : ascii -> bool) (s : str) : all f (take_while f s).
Proof.
  unfold all. induction s as [| c s IH]; simpl; [easy |].
  destruct (f c) eqn:Hc; simpl; [now rewrite Hc | easy].
Qed.

(** A run followed by something that does not continue it is the longest
    run. *)
Lemma take_while_exact (f : ascii -> bool) (run rest : str) :
  all f run -> no_more f rest ->
  take_while f (run ++ rest) = run /\ drop_while f (run ++ rest) = rest.
Proof.
  intros Hrun Hrest.
  destruct (take_while_app f run rest Hrun) as [-> ->].
  destruct (take_while_no_more f rest Hrest) as [-> ->].
  now rewrite app_nil_r.
Qed.

Lemma no_more_app (f g : ascii -> bool) (run rest : str) :
  (forall c, g c = true -> f c = false) ->
  run <> [] -> all g run -> no_more f (run ++ rest).
Proof.
  intros Hfg Hne Hrun. destruct run as [| c run]; [easy |].
  simpl. apply Hfg. unfold all in Hrun. simpl in Hrun.
  now apply andb_prop in Hrun as [-> _].
Qed.

Lemma at_least_1 (s : str) : at_least 1 s = true <-> s <> [].
Proof.
  unfold at_least. now destruct s.
Qed.

(** *** Literals, letter case apart *)

Lemma strip_prefix_same_text (p z rest : str) :
  same_text z p -> strip_prefix true p (z ++ rest) = Some rest.
Proof.
  unfold same_text. revert z.
  induction p as [| a p IH]; intros [| c z] H; try discriminate; [easy |].
  simpl in *. injection H as Hc Hz.
  unfold chr_eqb. rewrite Hc, Ascii.eqb_refl. now apply IH.
Qed.

Lemma strip_prefix_inv (p s rest : str) :
  strip_prefix true p s = Some rest ->
  exists z, s = z ++ rest /\ same_text z p /\ z = firstn (List.length p) s.
Proof.
  unfold same_text. revert s.
  induction p as [| a p IH]; intros s H.
  - simpl in H. injection H as ->. now exists [].
  - destruct s as [| c s]; cbn [strip_prefix] in H; [discriminate H |].
    destruct (chr_eqb true a c) eqn:Hc; [| discriminate H].
    destruct (IH s H) as (z & -> & Hz & Hf).
    exists (c :: z). simpl. rewrite <- Hf, Hz.
    unfold chr_eqb in Hc. apply Ascii.eqb_eq in Hc. now rewrite Hc.
Qed.

(** *** The leftmost match *)

Lemma first_match_Some (f : str -> option captures) (t : str) (caps : captures) :
  first_match f t = Some caps <->
  exists pre s,
    t = pre ++ s /\ f s = Some caps
    /\ forall pre' s', t = pre' ++ s' ->
                       (List.length pre' < List.length pre)%nat -> f s' = None.
Proof.
  induction t as [| c t IH].
  - simpl. split.
    + intros H. exists [], []. repeat split.
      * now destruct (f []).
      * intros pre' s' _ Hlt. simpl in Hlt. lia.
    + intros (pre & s & Ht & Hf & _).
      symmetry in Ht. apply app_eq_nil in Ht as [-> ->]. now rewrite Hf.
  - cbn [first_match]. destruct (f (c :: t)) as [caps0 |] eqn:Hhere.
    + split.
      * intros H. exists [], (c :: t). repeat split; [congruence |].
        intros pre' s' _ Hlt. simpl in Hlt. lia.
      * intros (pre & s & Ht & Hf & Hleft).
        destruct pre as [| c' pre].
        -- simpl in Ht. subst s. congruence.
        -- specialize (Hleft [] (c :: t) eq_refl). simpl in Hleft.
           rewrite Hleft in Hhere; [discriminate | lia].
    + rewrite IH. split.
      * intros (pre & s & -> & Hf & Hleft).
        exists (c :: pre), s. repeat split; [assumption |].
        intros [| c' pre'] s' Ht Hlt.
        -- simpl in Ht. now subst s'.
        -- simpl in Ht, Hlt. injection Ht as _ Ht.
           apply (Hleft pre' s' Ht). lia.
      * intros (pre & s & Ht & Hf & Hleft).
        destruct pre as [| c' pre].
        -- simpl in Ht. subst s. congruence.
        -- simpl in Ht. injection Ht as _ Ht.
           exists pre, s. repeat split; try assumption.
           intros pre' s' Ht' Hlt.
           apply (Hleft (c :: pre') s'); [now rewrite Ht' | simpl; lia].
Qed.

Lemma first_match_None (f : str -> option captures) (t : str) :
  first_match f t = None <-> forall pre s, t = pre ++ s -> f s = None.
Proof.
  induction t as [| c t IH].
  - simpl. split.
    + intros H pre s Ht.
      symmetry in Ht. apply app_eq_nil in Ht as [_ ->]. now destruct (f []).
    + intros H. now rewrite (H [] [] eq_refl).
  - cbn [first_match]. split.
    + intros H [| c' pre] s Ht.
      * simpl in Ht. subst s. now destruct (f (c :: t)).
      * simpl in Ht. injection Ht as _ Ht.
        destruct (f (c :: t)); [discriminate |].
        now apply (proj1 IH H pre s).
    + intros H. rewrite (H [] (c :: t) eq_refl). apply IH.
      intros pre s Ht. apply (H (c :: pre) s). now rewrite Ht.
Qed.

Lemma word_not_class (c : ascii) :
  starts_word c = true ->
  is_digit c = false /\ is_digit_or_dot c = false /\ is_space c = false.
Proof.
  intros H.
  destruct (is_digit_or_dot c) eqn:Hd.
  - apply digit_or_dot_not_word in Hd. congruence.
  - destruct (is_space c) eqn:Hs.
    + apply space_not_word in Hs. congruence.
    + unfold is_digit_or_dot in Hd. now apply orb_false_elim in Hd as [-> _].
Qed.

Lemma same_text_head (b : str) (a : ascii) (p : str) :
  same_text b (a :: p) ->
  exists c b', b = c :: b' /\ chr_eqb true a c = true /\ same_text b' p.
Proof.
  unfold same_text. destruct b as [| c b']; [discriminate |].
  simpl. intros H. injection H as Hc Hb.
  exists c, b'. unfold chr_eqb. now rewrite Hc, Ascii.eqb_refl.
Qed.

Lemma same_text_refl (a : str) : same_text a a.
Proof. reflexivity. Qed.

Lemma starts_word_same (a c : ascii) :
  chr_eqb true a c = true -> starts_word a = true -> starts_word c = true.
Proof.
  unfold starts_word, chr_eqb. intros E.
  apply Ascii.eqb_eq in E. now rewrite E.
Qed.

(** Blanks followed by a word of the patterns do not start with a digit or
    a dot. *)
Lemma no_more_blanks_word (ws b post : str) (a : ascii) (p : str) :
  all is_space ws ->
  same_text b (a :: p) ->
  starts_word a = true ->
  no_more is_digit (ws ++ b ++ post)
  /\ no_more is_digit_or_dot (ws ++ b ++ post).
Proof.
  intros Hws Hb Ha.
  destruct ws as [| c ws].
  - apply same_text_head in Hb as (c & b' & -> & Hc & _). simpl.
    now destruct (word_not_class c (starts_word_same a c Hc Ha)) as (-> & -> & _).
  - unfold all in Hws. simpl in Hws. apply andb_prop in Hws as [Hc _].
    simpl. split; [now apply space_not_digit | now apply space_not_digit_or_dot].
Qed.

(** *** [Zone <integer>] *)

Lemma zone_here_at (s ds' : str) :
  zone_here s ds' ->
  exists ds, zone_at s = Some [(1%nat, ds)]
             /\ (List.length ds' <= List.length ds)%nat.
Proof.
  intros (z & ws & post & -> & Hz & Hws & Hsp & Hds & Hdg).
  unfold zone_at. rewrite (strip_prefix_same_text _ _ _ Hz).
  destruct (take_while_exact is_space ws (ds' ++ post) Hsp) as [-> ->].
  { now apply (no_more_app is_space is_digit); [apply digit_not_space | |]. }
  rewrite (proj2 (at_least_1 ws) Hws).
  destruct (take_while_app is_digit ds' post Hdg) as [-> _].
  rewrite (proj2 (at_least_1 _)).
  - eexists. split; [reflexivity |]. rewrite length_app. lia.
  - now destruct ds'.
Qed.

Lemma zone_at_here (s : str) (caps : captures) :
  zone_at s = Some caps ->
  exists ds, caps = [(1%nat, ds)] /\ zone_here s ds.
Proof.
  unfold zone_at.
  destruct (strip_prefix true "Zone" s) as [r1 |] eqn:Hz; [| discriminate].
  apply strip_prefix_inv in Hz as (z & -> & Hz & _).
  destruct (at_least 1 (take_while is_space r1)) eqn:Hws; [| discriminate].
  cbv zeta.
  destruct (at_least 1 (take_while is_digit (drop_while is_space r1))) eqn:Hds;
    [| discriminate].
  intros H. injection H as <-.
  eexists. split; [reflexivity |].
  exists z, (take_while is_space r1),
    (drop_while is_digit (drop_while is_space r1)).
  rewrite !take_drop_while.
  repeat split; try assumption.
  - now apply at_least_1.
  - apply take_while_all.
  - now apply at_least_1.
  - apply take_while_all.
Qed.

Lemma no_more_space_word (b post : str) (a : ascii) (p : str) :
  same_text b (a :: p) -> starts_word a = true -> no_more is_space (b ++ post).
Proof.
  intros Hb Ha.
  apply same_text_head in Hb as (c & b' & -> & Hc & _). simpl.
  now destruct (word_not_class c (starts_word_same a c Hc Ha)) as (_ & _ & ->).
Qed.

Lemma same_text_length (a b : str) :
  same_text a b -> List.length a = List.length b.
Proof.
  unfold same_text. intros H.
  now rewrite <- (length_map upper a), H, length_map.
Qed.

Lemma firstn_same_text (u p post : str) :
  same_text u p -> firstn (List.length p) (u ++ post) = u.
Proof.
  intros H. rewrite <- (same_text_length _ _ H).
  now rewrite firstn_app, Nat.sub_diag, firstn_all, app_nil_r.
Qed.

(** *** [<integer> BPM] *)

Lemma bpm_here_at (s ds : str) :
  bpm_here s ds -> bpm_at s = Some [(1%nat, ds)].
Proof.
  intros (ws & b & post & -> & Hds & Hdg & Hsp & Hb).
  unfold bpm_at.
  destruct (take_while_exact is_digit ds (ws ++ b ++ post) Hdg) as [-> ->].
  { now apply (no_more_blanks_word ws b post "B" "PM"). }
  rewrite (proj2 (at_least_1 ds) Hds).
  destruct (take_while_exact is_space ws (b ++ post) Hsp) as [_ ->].
  { now apply (no_more_space_word b post "B" "PM"). }
  now rewrite (strip_prefix_same_text _ _ _ Hb).
Qed.

Lemma bpm_at_here (s : str) (caps : captures) :
  bpm_at s = Some caps ->
  exists ds, caps = [(1%nat, ds)] /\ bpm_here s ds.
Proof.
  unfold bpm_at.
  destruct (at_least 1 (take_while is_digit s)) eqn:Hds; [| discriminate].
  destruct (strip_prefix true "BPM" _) as [post |] eqn:Hb; [| discriminate].
  intros H. injection H as <-.
  apply strip_prefix_inv in Hb as (b & Hr & Hb & _).
  eexists. split; [reflexivity |].
  exists (take_while is_space (drop_while is_digit s)), b, post.
  rewrite <- Hr, !take_drop_while.
  repeat split; try assumption.
  - now apply at_least_1.
  - apply take_while_all.
  - apply take_while_all.
Qed.

(** *** [<mm>:<ss>/km] *)

Lemma pace_here_at (s mm ss : str) :
  pace_here s mm ss ->
  pace_at s = Some [(2%nat, ss); (1%nat, mm)].
Proof.
  intros (u & post & -> & Hmm & Hmd & Hss & Hsd & Hu).
  unfold pace_at.
  destruct (take_while_exact is_digit mm (":" ++ ss ++ u ++ post) Hmd)
    as [-> ->]; [reflexivity |].
  rewrite (proj2 (at_least_1 mm) Hmm).
  rewrite (strip_prefix_same_text ":" ":" _ (same_text_refl _)).
  destruct (take_while_exact is_digit ss (u ++ post) Hsd) as [-> ->].
  { now apply (no_more_blanks_word [] u post "/" "km"). }
  rewrite (proj2 (at_least_1 ss) Hss).
  now rewrite (strip_prefix_same_text _ _ _ Hu).
Qed.

Lemma pace_at_here (s : str) (caps : captures) :
  pace_at s = Some caps ->
  exists mm ss, caps = [(2%nat, ss); (1%nat, mm)] /\ pace_here s mm ss.
Proof.
  unfold pace_at.
  destruct (at_least 1 (take_while is_digit s)) eqn:Hmm; [| discriminate].
  destruct (strip_prefix true ":" (drop_while is_digit s)) as [r1 |] eqn:Hc;
    [| discriminate].
  destruct (at_least 1 (take_while is_digit r1)) eqn:Hss; [| discriminate].
  destruct (strip_prefix true "/km" (drop_while is_digit r1)) as [post |] eqn:Hu;
    [| discriminate].
  intros H. injection H as <-.
  apply strip_prefix_inv in Hu as (u & Hr2 & Hu & _).
  destruct (drop_while is_digit s) as [| c r] eqn:Hd; [discriminate Hc |].
  cbn [list_ascii_of_string strip_prefix] in Hc.
  destruct (chr_eqb true ":" c) eqn:Hcolon; [| discriminate Hc].
  injection Hc as ->.
  assert (c = ":"%char) as ->.
  { revert Hcolon. clear. ascii_cases c. }
  do 2 eexists. split; [reflexivity |].
  exists u, post.
  rewrite <- Hr2, take_drop_while. cbn [list_ascii_of_string app].
  rewrite <- Hd, take_drop_while.
  repeat split; try assumption.
  - now apply at_least_1.
  - apply take_while_all.
  - now apply at_least_1.
  - apply take_while_all.
Qed.

(** *** [<number> km|m] *)

Lemma distance_here_at (s num u : str) :
  distance_here s num u ->
  distance_at s = Some [(2%nat, u); (1%nat, num)].
Proof.
  intros (ws & post & -> & Hnum & Hdd & Hsp & Hu).
  unfold distance_at.
  assert (Hword : exists a p, same_text u (a :: p) /\ starts_word a = true).
  { destruct Hu as [Hu | Hu]; [exists "k"%char, ["m"%char]
                              | exists "m"%char, []]; now split. }
  destruct Hword as (a & p & Hup & Ha).
  destruct (take_while_exact is_digit_or_dot num (ws ++ u ++ post) Hdd)
    as [-> ->].
  { now apply (no_more_blanks_word ws u post a p). }
  rewrite (proj2 (at_least_1 num) Hnum).
  destruct (take_while_exact is_space ws (u ++ post) Hsp) as [_ ->].
  { now apply (no_more_space_word u post a p). }
  cbv zeta. destruct Hu as [Hu | Hu].
  - rewrite (strip_prefix_same_text _ _ _ Hu).
    now rewrite (firstn_same_text u "km" post Hu : firstn 2 (u ++ post) = u).
  - rewrite (strip_prefix_same_text "m" _ _ Hu).
    rewrite (firstn_same_text u "m" post Hu : firstn 1 (u ++ post) = u).
    apply same_text_head in Hu as (c & u' & -> & Hc & _).
    cbn [app list_ascii_of_string strip_prefix].
    replace (chr_eqb true "k" c) with false; [reflexivity |].
    revert Hc. clear. ascii_cases c.
Qed.

Lemma distance_at_here (s : str) (caps : captures) :
  distance_at s = Some caps ->
  exists num u, caps = [(2%nat, u); (1%nat, num)] /\ distance_here s num u.
Proof.
  unfold distance_at.
  destruct (at_least 1 (take_while is_digit_or_dot s)) eqn:Hnum; [| discriminate].
  cbv zeta.
  set (r := drop_while is_space (drop_while is_digit_or_dot s)).
  assert (Hs : forall u post, r = u ++ post ->
                 s = take_while is_digit_or_dot s
                       ++ take_while is_space (drop_while is_digit_or_dot s)
                       ++ u ++ post).
  { intros u post <-. unfold r. now rewrite !take_drop_while. }
  destruct (strip_prefix true "km" r) as [post |] eqn:Hkm.
  - intros H. injection H as <-.
    apply strip_prefix_inv in Hkm as (u & Hr & Hu & Hf).
    exists (take_while is_digit_or_dot s), u. split; [now rewrite Hf |].
    eexists _, post. split; [apply (Hs _ _ Hr) |].
    repeat split; auto using take_while_all. now apply at_least_1.
  - destruct (strip_prefix true "m" r) as [post |] eqn:Hm; [| discriminate].
    intros H. injection H as <-.
    apply strip_prefix_inv in Hm as (u & Hr & Hu & Hf).
    exists (take_while is_digit_or_dot s), u. split; [now rewrite Hf |].
    eexists _, post. split; [apply (Hs _ _ Hr) |].
    repeat split; auto using take_while_all. now apply at_least_1.
Qed.

(** ** The two parsers on the direct scanners *)

Lemma str_eqb_eq (a b : str) : str_eqb a b = true <-> a = b.
Proof.
  revert b. induction a as [| x a IH]; intros [| y b]; simpl; try easy.
  rewrite andb_true_iff, Ascii.eqb_eq, IH.
  split; [now intros [-> ->] | intros H; now injection H].
Qed.

Lemma parseTarget_scan (t : str) :
  parseTarget t =
  match first_match zone_at t with
  | Some zoneMatch => (heartRateZoneType, Some (parseInt (group 1 zoneMatch)))
  | None =>
      match first_match bpm_at t with
      | Some _ => (heartRateBpmType, None)
      | None =>
          match first_match pace_at t with
          | Some _ => (paceZoneType, None)
          | None => (noTargetType, None)
          end
      end
  end.
Proof.
  unfold parseTarget.
  rewrite (str_match_first_match true zone_regex zone_at zone_regex_run).
  rewrite (str_match_first_match true bpm_regex bpm_at bpm_regex_run).
  rewrite (str_match_first_match true pace_regex pace_at pace_regex_run).
  destruct t as [| c t]; [reflexivity |].
  cbn [truthy negb orb].
  destruct (str_eqb (c :: t) "Open") eqn:Hopen; [| reflexivity].
  apply str_eqb_eq in Hopen. rewrite Hopen. reflexivity.
Qed.

Lemma parseDuration_scan (d : str) :
  parseDuration d =
  match first_match distance_at d with
  | Some distanceMatch =>
      (distanceCondition, meters (group 1 distanceMatch) (group 2 distanceMatch))
  | None =>
      if includes ":" d then
        (timeCondition,
         match map Number (split ":" d) with
         | [p0; p1] => js_add (js_mul p0 (of_Z 60)) p1
         | [p0; p1; p2] =>
             js_add (js_add (js_mul p0 (of_Z 3600)) (js_mul p1 (of_Z 60))) p2
         | _ => of_Z 0
         end)
      else (lapButtonCondition, of_Z 1000)
  end.
Proof.
  unfold parseDuration.
  rewrite (str_match_first_match true distance_regex distance_at
             distance_regex_run).
  destruct (str_eqb d "Open") eqn:Hopen; [| reflexivity].
  apply str_eqb_eq in Hopen. rewrite Hopen. reflexivity.
Qed.

(** A pattern is found exactly when the text contains an occurrence. *)
Lemma zone_found (t : str) :
  first_match zone_at t <> None <-> contains_zone t.
Proof.
  split.
  - destruct (first_match zone_at t) as [caps |] eqn:H; [intros _ | easy].
    apply first_match_Some in H as (pre & s & Ht & Hat & _).
    apply zone_at_here in Hat as (ds & _ & Hhere).
    now exists pre, s, ds.
  - intros (pre & s & ds & Ht & Hhere) Hnone.
    apply zone_here_at in Hhere as (ds' & Hat & _).
    rewrite first_match_None in Hnone.
    rewrite (Hnone pre s Ht) in Hat. discriminate.
Qed.

Lemma bpm_found (t : str) :
  first_match bpm_at t <> None <-> contains_bpm t.
Proof.
  split.
  - destruct (first_match bpm_at t) as [caps |] eqn:H; [intros _ | easy].
    apply first_match_Some in H as (pre & s & Ht & Hat & _).
    apply bpm_at_here in Hat as (ds & _ & Hhere).
    now exists pre, s, ds.
  - intros (pre & s & ds & Ht & Hhere) Hnone.
    apply bpm_here_at in Hhere.
    rewrite first_match_None in Hnone.
    rewrite (Hnone pre s Ht) in Hhere. discriminate.
Qed.

Lemma pace_found (t : str) :
  first_match pace_at t <> None <-> contains_pace t.
Proof.
  split.
  - destruct (first_match pace_at t) as [caps |] eqn:H; [intros _ | easy].
    apply first_match_Some in H as (pre & s & Ht & Hat & _).
    apply pace_at_here in Hat as (mm & ss & _ & Hhere).
    now exists pre, s, mm, ss.
  - intros (pre & s & mm & ss & Ht & Hhere) Hnone.
    apply pace_here_at in Hhere.
    rewrite first_match_None in Hnone.
    rewrite (Hnone pre s Ht) in Hhere. discriminate.
Qed.

Lemma distance_found (t : str) :
  first_match distance_at t <> None <-> contains_distance t.
Proof.
  split.
  - destruct (first_match distance_at t) as [caps |] eqn:H; [intros _ | easy].
    apply first_match_Some in H as (pre & s & Ht & Hat & _).
    apply distance_at_here in Hat as (num & u & _ & Hhere).
    now exists pre, s, num, u.
  - intros (pre & s & num & u & Ht & Hhere) Hnone.
    apply distance_here_at in Hhere.
    rewrite first_match_None in Hnone.
    rewrite (Hnone pre s Ht) in Hhere. discriminate.
Qed.

Lemma not_found (f : str -> option captures) (t : str) (P : Prop) :
  (first_match f t <> None <-> P) -> ~ P -> first_match f t = None.
Proof.
  intros H HP. destruct (first_match f t); [| reflexivity].
  exfalso. apply HP, H. discriminate.
Qed.

(** ** Numerals *)

Lemma digit_facts (c : ascii) :
  is_digit c = true ->
  Ascii.eqb c "+" = false /\ Ascii.eqb c "-" = false
  /\ Ascii.eqb c "." = false /\ Ascii.eqb c ":" = false
  /\ chr_eqb true "x" c = false /\ chr_eqb true "o" c = false
  /\ chr_eqb true "b" c = false /\ chr_eqb false "I" c = false.
Proof.
  ascii_cases c; intros _; repeat split.
Qed.

Lemma all_cons (f : ascii -> bool) (c : ascii) (s : str) :
  all f (c :: s) <-> f c = true /\ all f s.
Proof.
  unfold all. simpl. apply andb_true_iff.
Qed.



Lemma take_while_whole (f : ascii -> bool) (s : str) :
  all f s -> take_while f s = s /\ drop_while f s = [].
Proof.
  intros H. rewrite <- (app_nil_r s) at 1 3.
  now apply take_while_exact.
Qed.

Lemma strip_sign_digit (c : ascii) (s : str) :
  is_digit c = true -> strip_sign (c :: s) = (false, c :: s).
Proof.
  intros H. destruct (digit_facts c H) as (Hp & Hm & _).
  unfold strip_sign. now rewrite Hp, Hm.
Qed.

Lemma drop_spaces_digits (ds : str) :
  all is_digit ds -> drop_while is_space ds = ds.
Proof.
  destruct ds as [| c ds]; [easy |].
  intros H. apply all_cons in H as [Hc _].
  simpl. now rewrite (digit_not_space c Hc).
Qed.


Lemma no_radix_prefix (ds : str) :
  all is_digit ds ->
  strip_prefix true "0x" ds = None
  /\ strip_prefix true "0o" ds = None
  /\ strip_prefix true "0b" ds = None.
Proof.
  intros H.
  destruct ds as [| c [| c2 ds]]; cbn [list_ascii_of_string strip_prefix].
  - easy.
  - now destruct (chr_eqb true "0" c).
  - apply all_cons in H as [_ H]. apply all_cons in H as [Hc2 _].
    destruct (digit_facts c2 Hc2) as (_ & _ & _ & _ & -> & -> & -> & _).
    now destruct (chr_eqb true "0" c).
Qed.

Lemma radix_value_digits (ds : str) :
  all is_digit ds -> radix_value 10 ds = digits_value ds.
Proof.
  unfold radix_value, digits_value. generalize 0%Z.
  induction ds as [| c ds IH]; intros acc H; [reflexivity |].
  apply all_cons in H as [Hc H]. simpl.
  unfold hex_val at 2. rewrite Hc. now apply IH.
Qed.

Lemma parseInt_digits (ds : str) :
  ds <> [] -> all is_digit ds -> parseInt ds = of_Z (digits_value ds).
Proof.
  intros Hne H. unfold parseInt, trim_start.
  rewrite (drop_spaces_digits ds H).
  destruct ds as [| c ds]; [easy |].
  pose proof (proj1 (all_cons _ _ _) H) as [Hc _].
  rewrite (strip_sign_digit c ds Hc).
  destruct (no_radix_prefix (c :: ds) H) as (-> & _).
  destruct (take_while_whole is_digit (c :: ds) H) as [-> _].
  now rewrite radix_value_digits.
Qed.






(** ** Targets *)

Lemma same_position (pre pre' s s' : str) :
  pre ++ s = pre' ++ s' -> List.length pre' = List.length pre ->
  pre' = pre /\ s' = s.
Proof.
  revert pre'. induction pre as [| c pre IH]; intros [| c' pre'] H Hlen;
    try discriminate.
  - now split.
  - simpl in H, Hlen. injection H as -> H. injection Hlen as Hlen.
    now destruct (IH pre' H Hlen) as [-> ->].
Qed.

(** C5: the patterns are tried in the order zone, BPM, pace, and the first
    that is found decides the one target type.  A text that contains
    [Zone <integer>] (letter case apart) gives the heart-rate-zone target
    with the integer of the leftmost occurrence, taken as long as it goes,
    as zone number: the zone number is [parseInt] of its digits, which is
    the integer they write whenever that is at most 2^53.  Otherwise a text
    that contains [<integer> BPM] gives the heart-rate-bpm target and no
    zone number; otherwise a text that contains [<mm>:<ss>/km] gives the
    pace-zone target and no zone number; every other text, the empty one
    and [Open] among them, gives no target and no zone number. *)
Theorem parseTarget_first_match_wins :
  forall t : str,
    (contains_zone t ->
     exists pre s ds,
       t = pre ++ s /\ zone_here s ds
       /\ (forall pre' s' ds',
              t = pre' ++ s' -> zone_here s' ds' ->
              (List.length pre <= List.length pre')%nat
              /\ (List.length pre' = List.length pre ->
                  (List.length ds' <= List.length ds)%nat))
       /\ parseTarget t = (heartRateZoneType, Some (parseInt ds))
       /\ ((digits_value ds <= 2 ^ 53)%Z ->
           parseTarget t
           = (heartRateZoneType, Some (of_Z (digits_value ds)))))
    /\ (~ contains_zone t -> contains_bpm t ->
        parseTarget t = (heartRateBpmType, None))
    /\ (~ contains_zone t -> ~ contains_bpm t -> contains_pace t ->
        parseTarget t = (paceZoneType, None))
    /\ (~ contains_zone t -> ~ contains_bpm t -> ~ contains_pace t ->
        parseTarget t = (noTargetType, None))
    /\ parseTarget [] = (noTargetType, None)
    /\ parseTarget "Open" = (noTargetType, None).
Proof.
  intros t. rewrite parseTarget_scan.
  split; [| split; [| split; [| split; [| split; reflexivity]]]].
  - intros Hz. apply zone_found in Hz.
    destruct (first_match zone_at t) as [caps |] eqn:Hfirst; [| easy].
    apply first_match_Some in Hfirst as (pre & s & Ht & Hat & Hleft).
    destruct (zone_at_here s caps Hat) as (ds & -> & Hhere).
    exists pre, s, ds.
    split; [assumption |]. split; [assumption |]. split.
    + intros pre' s' ds' Ht' Hhere'.
      apply zone_here_at in Hhere' as (ds0 & Hat' & Hle).
      split.
      * destruct (Nat.le_gt_cases (List.length pre) (List.length pre'))
          as [Hok | Hlt]; [assumption |].
        rewrite (Hleft pre' s' Ht' Hlt) in Hat'. discriminate.
      * intros Hlen. rewrite Ht in Ht'.
        destruct (same_position pre pre' s s' Ht' Hlen) as [_ ->].
        rewrite Hat in Hat'. now injection Hat' as <-.
    + destruct Hhere as (z & ws & post & _ & _ & _ & _ & Hne & Hdg).
      split; [reflexivity |].
      intros _. cbn. now rewrite (parseInt_digits ds Hne Hdg).
  - intros Hz Hb.
    rewrite (not_found _ _ _ (zone_found t) Hz).
    apply bpm_found in Hb. now destruct (first_match bpm_at t).
  - intros Hz Hb Hp.
    rewrite (not_found _ _ _ (zone_found t) Hz).
    rewrite (not_found _ _ _ (bpm_found t) Hb).
    apply pace_found in Hp. now destruct (first_match pace_at t).
  - intros Hz Hb Hp.
    rewrite (not_found _ _ _ (zone_found t) Hz).
    rewrite (not_found _ _ _ (bpm_found t) Hb).
    now rewrite (not_found _ _ _ (pace_found t) Hp).
Qed.

(** The witness of C5: a text with both a zone and a BPM figure. *)
Lemma parseTarget_first_match_wins_witness :
  contains_zone "zone 4 or 150 BPM"
  /\ contains_bpm "zone 4 or 150 BPM"
  /\ parseTarget "zone 4 or 150 BPM" = (heartRateZoneType, Some (of_Z 4))
  /\ exists pre s ds,
       list_ascii_of_string "zone 4 or 150 BPM" = pre ++ s
       /\ zone_here s ds
       /\ (forall pre' s' ds',
              list_ascii_of_string "zone 4 or 150 BPM" = pre' ++ s' ->
              zone_here s' ds' ->
              (List.length pre <= List.length pre')%nat
              /\ (List.length pre' = List.length pre ->
                  (List.length ds' <= List.length ds)%nat))
       /\ parseTarget "zone 4 or 150 BPM"
          = (heartRateZoneType, Some (parseInt ds))
       /\ ((digits_value ds <= 2 ^ 53)%Z ->
           parseTarget "zone 4 or 150 BPM"
           = (heartRateZoneType, Some (of_Z (digits_value ds)))).
Proof.
  assert (Hz : contains_zone "zone 4 or 150 BPM").
  { exists [], (list_ascii_of_string "zone 4 or 150 BPM"),
      (list_ascii_of_string "4").
    split; [reflexivity |].
    exists (list_ascii_of_string "zone"), (list_ascii_of_string " "),
      (list_ascii_of_string " or 150 BPM").
    repeat split; discriminate. }
  split; [exact Hz |]. split.
  - exists (list_ascii_of_string "zone 4 or "),
      (list_ascii_of_string "150 BPM"), (list_ascii_of_string "150").
    split; [reflexivity |].
    exists (list_ascii_of_string " "), (list_ascii_of_string "BPM"), [].
    repeat split; discriminate.
  - split; [reflexivity |].
    exact (proj1 (parseTarget_first_match_wins "zone 4 or 150 BPM") Hz).
Defined.

(** ** Durations *)

Lemma lower_upper (c : ascii) : lower (upper c) = lower c.
Proof. ascii_cases c. Qed.

Lemma same_text_lower (a b : str) :
  same_text a b -> toLowerCase a = toLowerCase b.
Proof.
  unfold same_text, toLowerCase. revert b.
  induction a as [| x a IH]; intros [| y b] H; try discriminate; [easy |].
  simpl in *. injection H as Hx Ha.
  rewrite (IH b Ha). f_equal.
  now rewrite <- (lower_upper x), Hx, lower_upper.
Qed.

Lemma meters_km (num u : str) :
  same_text u "km" -> meters num u = js_mul (parseFloat num) (of_Z 1000).
Proof.
  intros H. unfold meters. now rewrite (same_text_lower _ _ H).
Qed.

Lemma meters_m (num u : str) :
  same_text u "m" -> meters num u = parseFloat num.
Proof.
  intros H. unfold meters. now rewrite (same_text_lower _ _ H).
Qed.

(** C10: the distance pattern is tried first and anywhere in the text.  A
    duration that contains a number (digits and dots), optional blanks and
    [km] or [m] in any letter case, even as the start of a longer word, gives
    the distance end-condition; the meters come from the number of the
    leftmost occurrence, multiplied by 1000 when its unit is [km]. *)
Theorem parseDuration_distance_anywhere :
  forall d : str,
    contains_distance d ->
    exists pre s num u,
      d = pre ++ s /\ distance_here s num u
      /\ (forall pre' s' num' u',
             d = pre' ++ s' -> distance_here s' num' u' ->
             (List.length pre <= List.length pre')%nat)
      /\ parseDuration d = (distanceCondition, meters num u)
      /\ (same_text u "km" ->
          meters num u = js_mul (parseFloat num) (of_Z 1000))
      /\ (same_text u "m" -> meters num u = parseFloat num).
Proof.
  intros d Hd. rewrite parseDuration_scan.
  apply distance_found in Hd.
  destruct (first_match distance_at d) as [caps |] eqn:Hfirst; [| easy].
  apply first_match_Some in Hfirst as (pre & s & Ht & Hat & Hleft).
  destruct (distance_at_here s caps Hat) as (num & u & -> & Hhere).
  exists pre, s, num, u.
  split; [assumption |]. split; [assumption |]. split.
  - intros pre' s' num' u' Ht' Hhere'.
    apply distance_here_at in Hhere'.
    destruct (Nat.le_gt_cases (List.length pre) (List.length pre'))
      as [Hok | Hlt]; [assumption |].
    rewrite (Hleft pre' s' Ht' Hlt) in Hhere'. discriminate.
  - split; [reflexivity |]. split; [apply meters_km | apply meters_m].
Qed.

(** The two examples of C10: [30 min] is 30 meters, and in [10:00 min] the
    number in front of [m] is [00]. *)
Lemma parseDuration_distance_anywhere_witness :
  parseDuration "30 min" = (distanceCondition, of_Z 30)
  /\ parseDuration "10:00 min" = (distanceCondition, of_Z 0)
  /\ exists pre s num u,
       list_ascii_of_string "10:00 min" = pre ++ s
       /\ distance_here s num u
       /\ (forall pre' s' num' u',
              list_ascii_of_string "10:00 min" = pre' ++ s' ->
              distance_here s' num' u' ->
              (List.length pre <= List.length pre')%nat)
       /\ parseDuration "10:00 min" = (distanceCondition, meters num u)
       /\ (same_text u "km" ->
           meters num u = js_mul (parseFloat num) (of_Z 1000))
       /\ (same_text u "m" -> meters num u = parseFloat num).
Proof.
  split; [reflexivity |]. split; [reflexivity |].
  apply (parseDuration_distance_anywhere "10:00 min").
  exists (list_ascii_of_string "10:"), (list_ascii_of_string "00 min"),
    (list_ascii_of_string "00"), (list_ascii_of_string "m").
  split; [reflexivity |].
  exists (list_ascii_of_string " "), (list_ascii_of_string "in").
  repeat split; try discriminate. now right.
Defined.

(** Without a distance match, a duration that has no colon gives the
    lap-button end-condition with the value 1000, as [Open] does; one that
    has a colon gives a time end-condition, whose value is [0] when the
    colons cut it in a number of pieces other than two or three: the
    variable [seconds] is then as it was initialised. *)
Lemma parseDuration_without_distance :
  forall d : str,
    ~ contains_distance d ->
    parseDuration "Open" = (lapButtonCondition, of_Z 1000)
    /\ (includes ":" d = false ->
        parseDuration d = (lapButtonCondition, of_Z 1000))
    /\ (includes ":" d = true -> fst (parseDuration d) = timeCondition)
    /\ (includes ":" d = true ->
        List.length (split ":" d) <> 2%nat ->
        List.length (split ":" d) <> 3%nat ->
        parseDuration d = (timeCondition, of_Z 0)).
Proof.
  intros d Hd. split; [reflexivity |].
  rewrite parseDuration_scan.
  rewrite (not_found _ _ _ (distance_found d) Hd).
  split; [| split].
  - now intros ->.
  - now intros ->.
  - intros -> H2 H3. f_equal.
    rewrite <- (length_map Number) in H2, H3.
    destruct (map Number (split ":" d)) as [| p0 [| p1 [| p2 [| p3 ps]]]];
      simpl in H2, H3; easy.
Qed.

(** C3: the code misses the claim at [1:2:3:4].  This text is not [Open],
    has no distance match and is cut by its colons in four pieces, so it is
    none of the recognised forms; it does not give what [Open] gives, the
    lap-button end-condition with the value 1000, but a time end-condition
    with the value 0, whereas the text [1234], which differs by the colons
    only, gives what [Open] gives. *)
Theorem parseDuration_four_pieces_is_time :
  str_eqb "1:2:3:4" "Open" = false
  /\ ~ contains_distance "1:2:3:4"
  /\ List.length (split ":" "1:2:3:4") = 4%nat
  /\ parseDuration "1:2:3:4" = (timeCondition, of_Z 0)
  /\ parseDuration "1:2:3:4" <> parseDuration "Open"
  /\ parseDuration "1234" = parseDuration "Open".
Proof.
  split; [reflexivity |]. split.
  - intros H. now apply distance_found in H.
  - split; [reflexivity |]. split; [reflexivity |].
    split; [discriminate | reflexivity].
Qed.

(** *** Well-formed durations *)

Lemma first_match_here (f : str -> option captures) (s : str) (caps : captures) :
  f s = Some caps -> first_match f s = Some caps.
Proof.
  intros H. destruct s; simpl; now rewrite H.
Qed.



Lemma parseDuration_distance_here (num ws u : str) :
  num <> [] -> all is_digit_or_dot num -> all is_space ws ->
  same_text u "km" \/ same_text u "m" ->
  parseDuration (num ++ ws ++ u) = (distanceCondition, meters num u).
Proof.
  intros Hne Hnum Hws Hu.
  rewrite parseDuration_scan.
  rewrite (first_match_here distance_at _ [(2%nat, u); (1%nat, num)]);
    [reflexivity |].
  apply distance_here_at. exists ws, [].
  now rewrite app_nil_r.
Qed.










(** ** The scenarios of the specification, run on the model *)

Example parseTarget_examples :
  parseTarget "Zone 3" = (heartRateZoneType, Some (of_Z 3))
  /\ parseTarget "zone 99" = (heartRateZoneType, Some (of_Z 99))
  /\ parseTarget "138 BPM" = (heartRateBpmType, None)
  /\ parseTarget "138bpm" = (heartRateBpmType, None)
  /\ parseTarget "4:30/km" = (paceZoneType, None)
  /\ parseTarget "Zone3" = (noTargetType, None)
  /\ parseTarget "easy" = (noTargetType, None).
Proof.
  repeat split.
Qed.

Example parseDuration_examples :
  parseDuration "Open" = (lapButtonCondition, of_Z 1000)
  /\ parseDuration "easy" = (lapButtonCondition, of_Z 1000)
  /\ parseDuration "1.0 km" = (distanceCondition, of_Z 1000)
  /\ parseDuration "400 M" = (distanceCondition, of_Z 400)
  /\ parseDuration "2:00" = (timeCondition, of_Z 120)
  /\ parseDuration "a:b" = (timeCondition, NaN)
  /\ parseDuration ":" = (timeCondition, of_Z 0).
Proof.
  repeat split.
Qed.

Example convertToGarminPayload_scenario :
  match workoutSegments (convertToGarminPayload sample_workout) with
  | [segment] =>
      map endConditionValue (workoutSteps segment)
        = [of_Z 600; of_Z 1000; of_Z 120; of_Z 600]
      /\ map (fun s => (workoutTargetTypeKey (targetType s), zoneNumber s))
           (workoutSteps segment)
         = [ ("heart.rate.zone" : str, Some (of_Z 2));
             ("heart.rate.zone" : str, Some (of_Z 4));
             ("no.target" : str, None);
             ("heart.rate.zone" : str, Some (of_Z 2)) ]
      /\ map (fun s => stepTypeKey (stepType s)) (workoutSteps segment)
         = [ "warmup" : str; "interval" : str; "recovery" : str;
             "cooldown" : str ]
      /\ map stepOrder (workoutSteps segment) = [1; 2; 3; 4]%nat
  | _ => False
  end.
Proof.
  repeat split.
Qed.

Example createGarminWorkout_unauthorized :
  createGarminWorkout "Easy run" "Bearer t" "a=b" None "running"
    (Some (structured sample_workout))
    (fun _ => Returns {| status := 401; statusText := "Unauthorized";
                         text := Returns ([] : str);
                         json := Throws "Unexpected end of JSON input" |})
  = failed "Authentication expired. Please re-authenticate with Garmin Connect.".
Proof.
  reflexivity.
Qed.

Example createGarminWorkout_without_parser :
  success (createGarminWorkout "Easy run" "Bearer t" "a=b" None "running"
             None (fun _ => Returns response_200)) = false.
Proof.
  reflexivity.
Qed.

Example createGarminWorkout_network_error :
  createGarminWorkout "Easy run" "Bearer t" "a=b" None "running"
    (Some (structured sample_workout))
    (fun _ => Throws "getaddrinfo ENOTFOUND connect.garmin.com")
  = failed "getaddrinfo ENOTFOUND connect.garmin.com".
Proof.
  reflexivity.
Qed.

Example authenticate_timeout :
  authenticate plain_decode rejecting_parse browser_timeout Written None
  = (Returns None, None).
Proof.
  reflexivity.
Qed.

(** * Further properties of the workout translator *)

(** X1: the result of [createGarminWorkout] has one of two shapes.  It is a
    success with an identifier, a name and the link made of the workout path
    and that identifier, and no error; or it is a failure with an error
    message and none of the three. *)
Theorem createGarminWorkout_result_shape :
  forall (description authToken cookies sport : str) (customName : option str)
         (llmParser : option LlmParser) (fetch : Request -> outcome Response),
    (exists returnedId returnedName : str,
        createGarminWorkout description authToken cookies customName sport
          llmParser fetch
        = {| success := true;
             workoutId := Some returnedId;
             name := Some returnedName;
             url := Some ("https://connect.garmin.com/modern/workout/"
                            ++ returnedId);
             error := None |})
    \/ (exists message : str,
          createGarminWorkout description authToken cookies customName sport
            llmParser fetch
          = failed message).
Proof.
  intros description authToken cookies sport customName llmParser fetch.
  unfold createGarminWorkout, createGarminWorkout_try.
  destruct (match llmParser with
            | Some parser => parser description sport customName
            | None => parseWorkoutDescriptionWithLLM description sport customName
            end) as [workoutData | e]; cbn [bind]; [| right; eauto].
  destruct (fetch _) as [response | e]; cbn [bind]; [| right; eauto].
  destruct (ok response).
  - destruct (json response) as [result | e]; cbn [bind]; [| right; eauto].
    left. eauto.
  - destruct (text response) as [errorText | e]; cbn [bind]; [| right; eauto].
    destruct (status response =? 401)%Z; right; eauto.
Qed.

(** X2: a response with status 401 whose body can be read gives the
    message that the authentication expired, whatever its status text and
    body. *)
Theorem createGarminWorkout_auth_expired :
  forall (description authToken cookies sport : str) (customName : option str)
         (llmParser : LlmParser) (workoutData : WorkoutData)
         (fetch : Request -> outcome Response)
         (response : Response) (errorText : str),
    llmParser description sport customName = Returns workoutData ->
    fetch (workout_request authToken cookies sport
             (convertToGarminPayload workoutData)) = Returns response ->
    status response = 401%Z ->
    text response = Returns errorText ->
    createGarminWorkout description authToken cookies customName sport
      (Some llmParser) fetch
    = failed "Authentication expired. Please re-authenticate with Garmin Connect.".
Proof.
  intros description authToken cookies sport customName llmParser workoutData
    fetch response errorText Hparse Hfetch H401 Htext.
  unfold createGarminWorkout, createGarminWorkout_try.
  rewrite Hparse. cbn [bind]. rewrite Hfetch. cbn [bind].
  unfold ok. rewrite H401, Htext. reflexivity.
Qed.

Lemma createGarminWorkout_auth_expired_witness :
  createGarminWorkout "Easy run" "Bearer t" "a=b" None "running"
    (Some (structured sample_workout))
    (fun _ => Returns response_401)
  = failed "Authentication expired. Please re-authenticate with Garmin Connect.".
Proof.
  exact (createGarminWorkout_auth_expired "Easy run" "Bearer t" "a=b" "running"
           None (structured sample_workout) sample_workout
           (fun _ => Returns response_401) response_401 "expired"
           eq_refl eq_refl eq_refl eq_refl).
Defined.

(** X3: when the parser throws, or when there is none, the failure carries
    the thrown message and the result is the same for every [fetch]: no
    request decides it. *)
Theorem createGarminWorkout_parser_failure :
  forall (description authToken cookies sport : str) (customName : option str)
         (llmParser : option LlmParser) (message : str)
         (fetch : Request -> outcome Response),
    match llmParser with
    | Some parser => parser description sport customName
    | None => parseWorkoutDescriptionWithLLM description sport customName
    end = Throws message ->
    createGarminWorkout description authToken cookies customName sport
      llmParser fetch
    = failed message.
Proof.
  intros description authToken cookies sport customName llmParser message fetch
    Hparse.
  unfold createGarminWorkout, createGarminWorkout_try.
  now rewrite Hparse.
Qed.

Lemma createGarminWorkout_parser_failure_witness :
  createGarminWorkout "Easy run" "Bearer t" "a=b" None "running" None
    (fun _ => Returns response_200)
  = failed "LLM parser is required. This function should be called with an LLM parser from the MCP server.".
Proof.
  exact (createGarminWorkout_parser_failure "Easy run" "Bearer t" "a=b"
           "running" None None _ (fun _ => Returns response_200) eq_refl).
Defined.

(** X4: a failure of the transport, a 2xx body that is no JSON, and a body of
    another status that cannot be read are all reported as failures with the
    thrown message; the last also on status 401, where no re-authentication
    is asked for. *)
Theorem createGarminWorkout_thrown_message :
  forall (description authToken cookies sport : str) (customName : option str)
         (llmParser : LlmParser) (workoutData : WorkoutData)
         (fetch : Request -> outcome Response) (message : str),
    llmParser description sport customName = Returns workoutData ->
    fetch (workout_request authToken cookies sport
             (convertToGarminPayload workoutData)) = Throws message
    \/ (exists response,
          fetch (workout_request authToken cookies sport
                   (convertToGarminPayload workoutData)) = Returns response
          /\ (if ok response then json response = Throws message
              else text response = Throws message)) ->
    createGarminWorkout description authToken cookies customName sport
      (Some llmParser) fetch
    = failed message.
Proof.
  intros description authToken cookies sport customName llmParser workoutData
    fetch message Hparse Hthrown.
  unfold createGarminWorkout, createGarminWorkout_try.
  rewrite Hparse. cbn [bind].
  destruct Hthrown as [Hfetch | (response & Hfetch & Hbody)];
    rewrite Hfetch; cbn [bind]; [reflexivity |].
  destruct (ok response); now rewrite Hbody.
Qed.

Lemma createGarminWorkout_thrown_message_witness :
  createGarminWorkout "Easy run" "Bearer t" "a=b" None "running"
    (Some (structured sample_workout))
    (fun _ => Returns response_401_unreadable)
  = failed "Premature close".
Proof.
  refine (createGarminWorkout_thrown_message "Easy run" "Bearer t" "a=b"
            "running" None (structured sample_workout) sample_workout
            (fun _ => Returns response_401_unreadable)
            "Premature close" eq_refl (or_intror _)).
  exists response_401_unreadable. split; reflexivity.
Defined.

(** ** Zone numbers *)

Lemma digit_val_range (c : ascii) :
  is_digit c = true -> (0 <= digit_val c <= 9)%Z.
Proof.
  ascii_cases c; intros _; cbv; split; discriminate.
Qed.

Lemma digits_value_nonneg (ds : str) :
  all is_digit ds -> (0 <= digits_value ds)%Z.
Proof.
  unfold digits_value.
  assert (H : forall acc, (0 <= acc)%Z -> all is_digit ds ->
                (0 <= fold_left (fun a c => 10 * a + digit_val c) ds acc)%Z).
  { induction ds as [| c ds IH]; intros acc Hacc Hds; [assumption |].
    apply all_cons in Hds as [Hc Hds]. cbn [fold_left].
    apply IH; [| assumption].
    pose proof (digit_val_range c Hc). lia. }
  now apply H.
Qed.

(** What [parseTarget] can return: a zone target whose zone number is
    [parseInt] of the digits of a zone figure of the text, or one of the
    three other targets without a zone number. *)
Lemma parseTarget_shape (t : str) :
  (exists pre s ds : str,
      t = pre ++ s /\ zone_here s ds
      /\ parseTarget t = (heartRateZoneType, Some (parseInt ds)))
  \/ (snd (parseTarget t) = None
      /\ (fst (parseTarget t) = heartRateBpmType
          \/ fst (parseTarget t) = paceZoneType
          \/ fst (parseTarget t) = noTargetType)).
Proof.
  rewrite parseTarget_scan.
  destruct (first_match zone_at t) as [caps |] eqn:Hzone.
  - left. apply first_match_Some in Hzone as (pre & s & Ht & Hat & _).
    apply zone_at_here in Hat as (ds & -> & Hhere).
    now exists pre, s, ds.
  - right. destruct (first_match bpm_at t); [now auto |].
    destruct (first_match pace_at t); now auto.
Qed.

(** X5: the step built by [convertWorkoutStep] has a zone number exactly
    when its target is the heart-rate-zone target.  The zone number is
    [parseInt] of the digits of a zone figure of the target of the step: it
    is never [NaN] and never below [0], and it is the whole number the
    digits write whenever that is at most 2^53. *)
Theorem convertWorkoutStep_zone_number :
  forall (step : WorkoutStep) (n : nat),
    (zoneNumber (convertWorkoutStep step n) <> None <->
     targetType (convertWorkoutStep step n) = heartRateZoneType)
    /\ (forall z : number,
           zoneNumber (convertWorkoutStep step n) = Some z ->
           exists pre s ds : str,
             target step = pre ++ s /\ zone_here s ds
             /\ z = parseInt ds
             /\ z <> NaN
             /\ js_lt z (of_Z 0) = false
             /\ ((digits_value ds <= 2 ^ 53)%Z ->
                 z = of_Z (digits_value ds)
                 /\ (0 <= digits_value ds)%Z)).
Proof.
  intros step n. unfold convertWorkoutStep.
  destruct (parseDuration (duration step)) as [conditionType conditionValue].
  destruct (parseTarget_shape (target step))
    as [(pre & s & ds & Ht & Hhere & ->) | (Hnone & Htype)];
    cbn [zoneNumber targetType].
  - split; [easy |]. intros z Hz. injection Hz as <-.
    exists pre, s, ds.
    destruct Hhere as (zn & ws & post & Hs & Hzn & Hws & Hsp & Hne & Hdg).
    pose proof (digits_value_nonneg ds Hdg) as Hpos.
    split; [assumption |].
    split; [now exists zn, ws, post |].
    split; [reflexivity |].
    rewrite (parseInt_digits ds Hne Hdg).
    split; [discriminate |].
    split; [| now intros _].
    rewrite js_lt_of_Z. apply Z.ltb_ge. assumption.
  - destruct (parseTarget (target step)) as [ty zn]. cbn in Hnone, Htype.
    subst zn. cbn [zoneNumber targetType]. split; [| easy].
    split; [easy |]. intros Hty. rewrite Hty in Htype.
    destruct Htype as [H | [H | H]]; discriminate H.
Qed.

Lemma convertWorkoutStep_zone_number_witness :
  zoneNumber (convertWorkoutStep tempo_step 2) = Some (of_Z 3)
  /\ targetType (convertWorkoutStep tempo_step 2) = heartRateZoneType
  /\ exists pre s ds : str,
       target tempo_step = pre ++ s /\ zone_here s ds
       /\ of_Z 3 = parseInt ds
       /\ of_Z 3 <> NaN
       /\ js_lt (of_Z 3) (of_Z 0) = false
       /\ ((digits_value ds <= 2 ^ 53)%Z ->
           of_Z 3 = of_Z (digits_value ds) /\ (0 <= digits_value ds)%Z).
Proof.
  split; [reflexivity |].
  split.
  - apply (proj1 (convertWorkoutStep_zone_number tempo_step 2)). discriminate.
  - exact (proj2 (convertWorkoutStep_zone_number tempo_step 2) (of_Z 3) eq_refl).
Defined.

(** ** Distances *)










Lemma same_text_trans (a b c : str) :
  same_text a b -> same_text b c -> same_text a c.
Proof.
  unfold same_text. congruence.
Qed.

(** X7: the unit of a distance is read whatever its letter case: a number,
    optional blanks and a unit spelled [km] or [m] in any case give what the
    lower-case spelling gives. *)
Theorem parseDuration_unit_case :
  forall num ws u lowered : str,
    num <> [] -> all is_digit_or_dot num -> all is_space ws ->
    lowered = "km" \/ lowered = "m" ->
    same_text u lowered ->
    parseDuration (num ++ ws ++ u) = parseDuration (num ++ ws ++ lowered).
Proof.
  intros num ws u lowered Hne Hdd Hws Hlow Hu.
  assert (Hunit : forall x, same_text x lowered ->
                    same_text x "km" \/ same_text x "m")
    by (intros x Hx; destruct Hlow as [-> | ->]; auto).
  rewrite (parseDuration_distance_here num ws u Hne Hdd Hws (Hunit u Hu)).
  rewrite (parseDuration_distance_here num ws lowered Hne Hdd Hws
             (Hunit lowered (same_text_refl _))).
  unfold meters. now rewrite (same_text_lower _ _ Hu).
Qed.

Lemma parseDuration_unit_case_witness :
  parseDuration "2.5 Km" = parseDuration "2.5 km".
Proof.
  exact (parseDuration_unit_case "2.5" " " "Km" "km" ltac:(discriminate)
           eq_refl eq_refl (or_introl eq_refl) eq_refl).
Defined.

(** ** Letter case of targets *)

Lemma upper_idempotent (c : ascii) : upper (upper c) = upper c.
Proof. ascii_cases c. Qed.

Lemma class_upper (c : ascii) :
  is_digit (upper c) = is_digit c /\ is_space (upper c) = is_space c.
Proof. ascii_cases c; now split. Qed.

Lemma digit_upper (c : ascii) : is_digit c = true -> upper c = c.
Proof. ascii_cases c. Qed.

Lemma digits_upper (ds : str) : all is_digit ds -> map upper ds = ds.
Proof.
  induction ds as [| c ds IH]; intros H; [reflexivity |].
  apply all_cons in H as [Hc H]. simpl.
  now rewrite (digit_upper c Hc), (IH H).
Qed.

Lemma take_while_upper (f : ascii -> bool) (s : str) :
  (forall c, f (upper c) = f c) ->
  take_while f (map upper s) = map upper (take_while f s)
  /\ drop_while f (map upper s) = map upper (drop_while f s).
Proof.
  intros Hf. induction s as [| c s [IHt IHd]]; [easy |].
  simpl. rewrite Hf. destruct (f c); simpl; [now rewrite IHt | easy].
Qed.

Lemma take_digits_upper (s : str) :
  take_while is_digit (map upper s) = take_while is_digit s
  /\ drop_while is_digit (map upper s) = map upper (drop_while is_digit s).
Proof.
  destruct (take_while_upper is_digit s (fun c => proj1 (class_upper c)))
    as [-> ->].
  split; [| reflexivity].
  apply digits_upper, take_while_all.
Qed.

Lemma drop_spaces_upper (s : str) :
  List.length (take_while is_space (map upper s))
    = List.length (take_while is_space s)
  /\ drop_while is_space (map upper s) = map upper (drop_while is_space s).
Proof.
  destruct (take_while_upper is_space s (fun c => proj2 (class_upper c)))
    as [-> ->].
  now rewrite length_map.
Qed.

Lemma strip_prefix_upper (p s : str) :
  strip_prefix true p (map upper s)
  = option_map (map upper) (strip_prefix true p s).
Proof.
  revert s. induction p as [| a p IH]; intros s; [reflexivity |].
  destruct s as [| c s]; [reflexivity |].
  cbn [map strip_prefix]. unfold chr_eqb.
  rewrite upper_idempotent.
  destruct (Ascii.eqb (upper a) (upper c)); [apply IH | reflexivity].
Qed.

Lemma zone_at_upper (s : str) : zone_at (map upper s) = zone_at s.
Proof.
  unfold zone_at. rewrite strip_prefix_upper.
  destruct (strip_prefix true "Zone" s) as [r1 |]; [| reflexivity].
  cbn [option_map]. unfold at_least.
  destruct (drop_spaces_upper r1) as [-> ->].
  now destruct (take_digits_upper (drop_while is_space r1)) as [-> _].
Qed.

Lemma bpm_at_upper (s : str) : bpm_at (map upper s) = bpm_at s.
Proof.
  unfold bpm_at.
  destruct (take_digits_upper s) as [-> ->].
  destruct (drop_spaces_upper (drop_while is_digit s)) as [_ ->].
  rewrite strip_prefix_upper.
  now destruct (strip_prefix true "BPM" _).
Qed.

Lemma pace_at_upper (s : str) : pace_at (map upper s) = pace_at s.
Proof.
  unfold pace_at.
  destruct (take_digits_upper s) as [-> ->].
  rewrite strip_prefix_upper.
  destruct (strip_prefix true ":" (drop_while is_digit s)) as [r1 |];
    [| reflexivity].
  cbn [option_map].
  destruct (take_digits_upper r1) as [-> ->].
  rewrite strip_prefix_upper.
  now destruct (strip_prefix true "/km" _).
Qed.

Lemma first_match_upper (f : str -> option captures) (t : str) :
  (forall s, f (map upper s) = f s) ->
  first_match f (map upper t) = first_match f t.
Proof.
  intros Hf. induction t as [| c t IH].
  - reflexivity.
  - change (map upper (c :: t)) with (upper c :: map upper t).
    cbn [first_match].
    change (upper c :: map upper t) with (map upper (c :: t)).
    now rewrite Hf, IH.
Qed.

(** X8: [parseTarget] does not depend on the letter case of the target: a
    text and its upper-case form give the same target type and the same
    zone number. *)
Theorem parseTarget_ignores_case :
  forall t : str, parseTarget (toUpperCase t) = parseTarget t.
Proof.
  intros t. unfold toUpperCase. rewrite !parseTarget_scan.
  rewrite (first_match_upper zone_at t zone_at_upper).
  rewrite (first_match_upper bpm_at t bpm_at_upper).
  now rewrite (first_match_upper pace_at t pace_at_upper).
Qed.

(** ** The two tables *)

Lemma table_get_In {V : Type} (k : str) (table : list (str * V)) (v : V) :
  table_get k table = Some v -> In (k, v) table.
Proof.
  induction table as [| [k' v'] table IH]; [discriminate |].
  simpl. destruct (str_eqb k k') eqn:E.
  - apply str_eqb_eq in E as ->. intros H. injection H as ->. now left.
  - intros H. right. now apply IH.
Qed.

Lemma table_get_missing {V : Type} (k : str) (table : list (str * V)) :
  ~ In k (map fst table) -> table_get k table = None.
Proof.
  induction table as [| [k' v'] table IH]; [reflexivity |].
  simpl. intros H. destruct (str_eqb k k') eqn:E.
  - apply str_eqb_eq in E. exfalso. apply H. now left.
  - apply IH. intros Hin. apply H. now right.
Qed.

(** X9: for an intensity that is no inherited member name, the step type
    of the converted step is one of the four rows of the table, the row of
    the intensity when it is [warmup], [cooldown], [active] or [rest], and
    the [interval] row of [active] for every other intensity. *)
Theorem convertWorkoutStep_step_type :
  forall (step : WorkoutStep) (n : nat),
    ~ In (intensity step) inherited_keys ->
    (exists row : Mapping,
        (In (intensity step, row) stepTypeMapping
         \/ (~ In (intensity step) (map fst stepTypeMapping)
             /\ row = activeMapping))
        /\ stepType (convertWorkoutStep step n)
           = {| stepTypeId := id row;
                stepTypeKey := key row;
                step_displayOrder := order row |})
    /\ In (stepTypeKey (stepType (convertWorkoutStep step n)))
          [ "warmup" : str; "cooldown" : str; "interval" : str;
            "recovery" : str ].
Proof.
  intros step n _.
  assert (Hst : stepType (convertWorkoutStep step n)
                = let row := or_else (table_get (intensity step) stepTypeMapping)
                                     activeMapping in
                  {| stepTypeId := id row; stepTypeKey := key row;
                     step_displayOrder := order row |}).
  { unfold convertWorkoutStep.
    now destruct (parseDuration (duration step)), (parseTarget (target step)). }
  rewrite Hst. cbv zeta.
  destruct (table_get (intensity step) stepTypeMapping) as [row |] eqn:Hget;
    cbn [or_else].
  - pose proof (table_get_In _ _ _ Hget) as Hin. split.
    + exists row. split; [now left | reflexivity].
    + destruct Hin as [H | [H | [H | [H | []]]]]; injection H as _ <-;
        cbn; auto.
  - split; [| cbn; auto].
    exists activeMapping. split; [| reflexivity].
    right. split; [| reflexivity].
    intros Hin. apply in_map_iff in Hin as ([k row] & Hk & Hin).
    cbn in Hk. subst k.
    destruct Hin as [H | [H | [H | [H | []]]]]; injection H as Hk _;
      rewrite <- Hk in Hget; discriminate Hget.
Qed.

Ltac not_listed :=
  let H := fresh "H" in
  intros H; cbn in H;
  repeat (destruct H as [H | H]; [discriminate H |]); exact H.

Lemma convertWorkoutStep_step_type_witness :
  (exists row : Mapping,
      (In (intensity tempo_step, row) stepTypeMapping
       \/ (~ In (intensity tempo_step) (map fst stepTypeMapping)
           /\ row = activeMapping))
      /\ stepType (convertWorkoutStep tempo_step 2)
         = {| stepTypeId := id row;
              stepTypeKey := key row;
              step_displayOrder := order row |})
  /\ In (stepTypeKey (stepType (convertWorkoutStep tempo_step 2)))
        [ "warmup" : str; "cooldown" : str; "interval" : str;
          "recovery" : str ].
Proof.
  apply (convertWorkoutStep_step_type tempo_step 2). not_listed.
Defined.

(** X10: for a sport that is no inherited member name, the payload has one
    segment, of order 1, which repeats the sport type of the payload, and
    that sport type has one of the keys [running], [cycling] and [swimming]:
    the row of the sport, or the [running] row when the sport is none of the
    three. *)
Theorem convertToGarminPayload_sport :
  forall workoutData : WorkoutData,
    ~ In (workout_sport workoutData) inherited_keys ->
    exists (row : Mapping) (segment : WorkoutSegment),
      (In (workout_sport workoutData, row) sportMapping
       \/ (~ In (workout_sport workoutData) (map fst sportMapping)
           /\ row = runningMapping))
      /\ sportType (convertToGarminPayload workoutData)
         = {| sportTypeId := id row;
              sportTypeKey := key row;
              sport_displayOrder := order row |}
      /\ workoutSegments (convertToGarminPayload workoutData) = [segment]
      /\ segmentOrder segment = 1%Z
      /\ segment_sportType segment
         = sportType (convertToGarminPayload workoutData)
      /\ In (key row) [ "running" : str; "cycling" : str; "swimming" : str ].
Proof.
  intros workoutData _. unfold convertToGarminPayload.
  cbn [sportType workoutSegments].
  destruct (table_get (workout_sport workoutData) sportMapping) as [row |]
    eqn:Hget; cbn [or_else].
  - pose proof (table_get_In _ _ _ Hget) as Hin.
    exists row. eexists. split; [now left |].
    repeat (split; [reflexivity |]).
    destruct Hin as [H | [H | [H | []]]]; injection H as _ <-; cbn; auto.
  - exists runningMapping. eexists. split.
    + right. split; [| reflexivity].
      intros Hin. apply in_map_iff in Hin as ([k row] & Hk & Hin).
      cbn in Hk. subst k.
      destruct Hin as [H | [H | [H | []]]]; injection H as Hk _;
        rewrite <- Hk in Hget; discriminate Hget.
    + repeat (split; [reflexivity |]). cbn. auto.
Qed.

Lemma convertToGarminPayload_sport_witness :
  sportTypeKey (sportType (convertToGarminPayload rowing_workout)) = "running"
  /\ exists (row : Mapping) (segment : WorkoutSegment),
       (In (workout_sport rowing_workout, row) sportMapping
        \/ (~ In (workout_sport rowing_workout) (map fst sportMapping)
            /\ row = runningMapping))
       /\ sportType (convertToGarminPayload rowing_workout)
          = {| sportTypeId := id row;
               sportTypeKey := key row;
               sport_displayOrder := order row |}
       /\ workoutSegments (convertToGarminPayload rowing_workout) = [segment]
       /\ segmentOrder segment = 1%Z
       /\ segment_sportType segment
          = sportType (convertToGarminPayload rowing_workout)
       /\ In (key row) [ "running" : str; "cycling" : str; "swimming" : str ].
Proof.
  split; [reflexivity |].
  apply (convertToGarminPayload_sport rowing_workout). not_listed.
Defined.

(** * Further properties of the credential manager *)

(** ** The captured token *)

Section AcquisitionFacts.

Variable base64_decode : str -> str.
Variable JSON_parse : str -> outcome json_value.

Ltac step_outcome :=
  match goal with
  | |- context [bind ?x _] =>
      let u := fresh "u" in
      let e := fresh "e" in
      destruct x as [u | e] eqn:?; cbn [bind]
  end.



(** X11: the token of a returned credential is the first header, over the
    requests seen while the page loaded, while the login was awaited, while
    the cookies were read and then during the reload, that is not empty and
    starts with [Bearer ]; the cookie header is the cookies of the page as
    [name=value] joined by [; ], and it is not empty. *)
Theorem authenticate_captured_token :
  forall (browser : Browser) (written : WriteOutcome) (store store' : Store)
         (a : AuthData),
    authenticate base64_decode JSON_parse browser written store
      = (Returns (Some a), store') ->
    first_bearer (requests_of_run browser) = Some (authToken a)
    /\ startsWith "Bearer " (authToken a) = true
    /\ (exists pageCookies : list Cookie,
           result (page_cookies browser) = Returns pageCookies
           /\ cookies a
              = join "; "
                  (map (fun c => cookie_name c ++ "=" ++ cookie_value c)
                       pageCookies))
    /\ cookies a <> [].
Proof.
  intros browser written store store' a Hrun.
  apply authenticate_credential_try, authenticate_try_capture in Hrun
    as (pageCookies & Hcookies & Hjoin & Hck & Htok & Hcap).
  assert (Hfirst : first_bearer (requests_of_run browser) = Some (authToken a)).
  { unfold requests_of_run. rewrite first_bearer_app.
    destruct (first_bearer (requests_before_reload browser)) as [h |];
      [now rewrite Hcap |].
    rewrite observe_first_bearer in Hcap. cbn [truthy] in Hcap.
    destruct (first_bearer (requests (reload_and_pause browser))) as [h |];
      [now rewrite Hcap |].
    rewrite Hcap in Htok. discriminate Htok. }
  split; [assumption |].
  split; [now apply (first_bearer_accepts _ _ Hfirst) |].
  split; [now exists pageCookies |].
  intros Hnil. rewrite Hnil in Hck. discriminate Hck.
Qed.

End AcquisitionFacts.

Lemma authenticate_captured_token_witness :
  exists a : AuthData,
    authenticate plain_decode claims_parse browser_jwt Written None
      = (Returns (Some a), Some a)
    /\ authToken a = "Bearer hhh.ppp.sss"
    /\ cookies a = "SESSION=1; JWT_WEB=x"
    /\ first_bearer (requests_of_run browser_jwt) = Some (authToken a)
    /\ startsWith "Bearer " (authToken a) = true
    /\ (exists pageCookies : list Cookie,
           result (page_cookies browser_jwt) = Returns pageCookies
           /\ cookies a
              = join "; "
                  (map (fun c => cookie_name c ++ "=" ++ cookie_value c)
                       pageCookies))
    /\ cookies a <> [].
Proof.
  eexists. split; [reflexivity |]. split; [reflexivity |].
  split; [reflexivity |].
  exact (authenticate_captured_token plain_decode claims_parse browser_jwt
           Written None _ _ eq_refl).
Defined.

Section AcquisitionOrder.

Variable base64_decode : str -> str.
Variable JSON_parse : str -> outcome json_value.

(** X12: when a token was captured before the cookies were read, the page
    is not reloaded: what the reload would do, and which requests it would
    cause, changes neither the result nor the store. *)
Theorem authenticate_reload_unused :
  forall (browser : Browser) (r : Observed unit) (written : WriteOutcome)
         (store : Store) (h : str),
    first_bearer (requests_before_reload browser) = Some h ->
    authenticate base64_decode JSON_parse (with_reload browser r) written store
    = authenticate base64_decode JSON_parse browser written store.
Proof.
  intros browser r written store h Hfirst.
  assert (Htry : authenticate_try base64_decode JSON_parse
                   (with_reload browser r) written store
                 = authenticate_try base64_decode JSON_parse browser written
                     store).
  { unfold authenticate_try.
    rewrite (observe_run browser).
    change (observe (page_cookies (with_reload browser r))
              (observe (waitForFunction (with_reload browser r))
                 (observe (goto (with_reload browser r)) [])))
      with (observe (page_cookies browser)
              (observe (waitForFunction browser) (observe (goto browser) []))).
    rewrite (observe_run browser), Hfirst.
    destruct (first_bearer_accepts _ _ Hfirst) as (-> & _).
    reflexivity. }
  unfold authenticate. now rewrite Htry.
Qed.

End AcquisitionOrder.

Lemma authenticate_reload_unused_witness :
  authenticate plain_decode claims_parse
    (with_reload browser_jwt
       {| requests := [Some ("Bearer late" : str)]; result := Returns tt |})
    Written None
  = authenticate plain_decode claims_parse browser_jwt Written None.
Proof.
  exact (authenticate_reload_unused plain_decode claims_parse browser_jwt
           {| requests := [Some ("Bearer late" : str)]; result := Returns tt |}
           Written None "Bearer hhh.ppp.sss" eq_refl).
Defined.

(** ** The claims of the token *)

Lemma isTokenValid_unfold (a : AuthData) (now : Z) :
  isTokenValid a now = js_lt (of_Z (now + 30000)) (expiresAt a).
Proof.
  unfold isTokenValid. now rewrite js_mul_of_Z, js_add_of_Z.
Qed.

Section Claims.

Variable base64_decode : str -> str.
Variable JSON_parse : str -> outcome json_value.

(** X13: the expiry of a returned credential comes from the claims of its
    token.  When the claims are an object whose [exp] and [iat] are whole
    numbers of seconds, and the milliseconds they make are at most 2^53 in
    size, the credential expires at [exp * 1000] and was issued at
    [iat * 1000], so that it is valid at [now] exactly when
    [now + 30000 < exp * 1000]. *)
Theorem authenticate_expiry_from_claims :
  forall (browser : Browser) (written : WriteOutcome) (store store' : Store)
         (a : AuthData) (fields : list (str * json_value)) (exp iat now : Z),
    authenticate base64_decode JSON_parse browser written store
      = (Returns (Some a), store') ->
    parseJWT_try base64_decode JSON_parse (authToken a)
      = Returns (JObject fields) ->
    table_get "exp" fields = Some (JNumber (of_Z exp)) ->
    table_get "iat" fields = Some (JNumber (of_Z iat)) ->
    (Z.abs (exp * 1000) <= 2 ^ 53)%Z ->
    (Z.abs (iat * 1000) <= 2 ^ 53)%Z ->
    expiresAt a = of_Z (exp * 1000)
    /\ issuedAt a = of_Z (iat * 1000)
    /\ (isTokenValid a now = true <-> (now + 30000 < exp * 1000)%Z).
Proof.
  intros browser written store store' a fields exp iat now Hrun Hjwt Hexp Hiat
    _ _.
  apply authenticate_credential_try, authenticate_try_credential in Hrun
    as (vexp & viat & Hgexp & Hgiat & HexpiresAt & HissuedAt & _).
  unfold parseJWT in Hgexp, Hgiat. rewrite Hjwt in Hgexp, Hgiat.
  cbn [get_property] in Hgexp, Hgiat. rewrite Hexp in Hgexp.
  rewrite Hiat in Hgiat.
  injection Hgexp as <-. injection Hgiat as <-.
  cbn [ToNumber ToNumber_value] in HexpiresAt, HissuedAt.
  rewrite js_mul_of_Z in HexpiresAt, HissuedAt.
  split; [assumption |]. split; [assumption |].
  rewrite isTokenValid_unfold, HexpiresAt, js_lt_of_Z. apply Z.ltb_lt.
Qed.

(** X14: a token whose claims are the JSON value [null] gives no
    credential: reading [exp] throws inside the [try] block, so that, the
    browser launched and closed, [authenticate] returns [null] and leaves
    the store as it is. *)
Theorem authenticate_null_claims :
  forall (browser : Browser) (written : WriteOutcome) (store : Store) (token : str),
    launch browser = Returns tt ->
    close browser = Returns tt ->
    first_bearer (requests_of_run browser) = Some token ->
    parseJWT_try base64_decode JSON_parse token = Returns JNull ->
    authenticate base64_decode JSON_parse browser written store
    = (Returns None, store).
Proof.
  intros browser written store token Hlaunch Hclose Hfirst Hjwt.
  unfold authenticate. rewrite Hlaunch, Hclose.
  destruct (authenticate_try base64_decode JSON_parse browser written store)
    as [[[a |] store'] | e] eqn:Htry; [| | reflexivity].
  - exfalso.
    pose proof (authenticate_first_bearer _ _ _ _ _ _ _ Htry) as Htok.
    rewrite Hfirst in Htok. injection Htok as ->.
    apply authenticate_try_credential in Htry as (vexp & _ & Hgexp & _).
    unfold parseJWT in Hgexp. rewrite Hjwt in Hgexp. discriminate Hgexp.
  - now rewrite (authenticate_try_store _ _ _ _ _ _ _ Htry).
Qed.

(** X15: a token whose claims can be read but have no [exp] gives a
    credential whose expiry is [NaN], and such a credential is valid at no
    time. *)
Theorem authenticate_claims_without_exp :
  forall (browser : Browser) (written : WriteOutcome) (store store' : Store)
         (a : AuthData) (claims : json_value) (now : Z),
    authenticate base64_decode JSON_parse browser written store
      = (Returns (Some a), store') ->
    parseJWT_try base64_decode JSON_parse (authToken a) = Returns claims ->
    get_property claims "exp" = Returns None ->
    expiresAt a = NaN /\ isTokenValid a now = false.
Proof.
  intros browser written store store' a claims now Hrun Hjwt Hnone.
  apply authenticate_credential_try, authenticate_try_credential in Hrun
    as (vexp & viat & Hgexp & _ & HexpiresAt & _).
  unfold parseJWT in Hgexp. rewrite Hjwt, Hnone in Hgexp.
  injection Hgexp as <-. cbn [ToNumber js_mul] in HexpiresAt.
  split; [assumption |].
  rewrite isTokenValid_unfold, HexpiresAt. reflexivity.
Qed.

End Claims.

Lemma authenticate_expiry_from_claims_witness :
  exists a : AuthData,
    authenticate plain_decode claims_parse browser_jwt Written None
      = (Returns (Some a), Some a)
    /\ expiresAt a = of_Z (1700000300 * 1000)
    /\ issuedAt a = of_Z (1700000000 * 1000)
    /\ (isTokenValid a 1700000000000 = true
        <-> (1700000000000 + 30000 < 1700000300 * 1000)%Z).
Proof.
  eexists. split; [reflexivity |].
  exact (authenticate_expiry_from_claims plain_decode claims_parse browser_jwt
           Written None _ _ _ 1700000300 1700000000 1700000000000
           eq_refl eq_refl eq_refl eq_refl
           ltac:(discriminate) ltac:(discriminate)).
Defined.

Lemma authenticate_null_claims_witness :
  authenticate plain_decode null_parse browser_jwt Written None
  = (Returns None, None).
Proof.
  exact (authenticate_null_claims plain_decode null_parse browser_jwt Written None
           "Bearer hhh.ppp.sss" eq_refl eq_refl eq_refl eq_refl).
Defined.

Lemma authenticate_claims_without_exp_witness :
  exists a : AuthData,
    authenticate plain_decode empty_object_parse browser_jwt Written None
      = (Returns (Some a), Some a)
    /\ expiresAt a = NaN
    /\ isTokenValid a 0 = false.
Proof.
  eexists. split; [reflexivity |].
  exact (authenticate_claims_without_exp plain_decode empty_object_parse
           browser_jwt Written None _ _ (JObject []) 0 eq_refl eq_refl eq_refl).
Defined.

(** ** The segments of the token *)

Lemma split_whole (c : ascii) (a : str) : ~ In c a -> split c a = [a].
Proof.
  induction a as [| x a IH]; intros H; [reflexivity |].
  cbn [split].
  destruct (Ascii.eqb x c) eqn:E.
  - apply Ascii.eqb_eq in E. exfalso. apply H. now left.
  - rewrite IH; [reflexivity |]. intros Hin. apply H. now right.
Qed.

Lemma split_piece (c : ascii) (a rest : str) :
  ~ In c a -> split c (a ++ c :: rest) = a :: split c rest.
Proof.
  induction a as [| x a IH]; intros H.
  - cbn [app split]. now rewrite Ascii.eqb_refl.
  - cbn [app split].
    destruct (Ascii.eqb x c) eqn:E.
    + apply Ascii.eqb_eq in E. exfalso. apply H. now left.
    + rewrite IH; [reflexivity |]. intros Hin. apply H. now right.
Qed.

Lemma remove_first_prefix (p s : str) : remove_first p (p ++ s) = s.
Proof.
  destruct (p ++ s) as [| c t] eqn:E; cbn [remove_first];
    rewrite <- E, strip_prefix_app; reflexivity.
Qed.

Lemma strip_prefix_In (icase : bool) (p s rest : str) (c : ascii) :
  strip_prefix icase p s = Some rest -> In c rest -> In c s.
Proof.
  intros H Hin. apply strip_prefix_split in H as [-> _].
  apply in_or_app. now right.
Qed.

Lemma remove_first_In (p s : str) (c : ascii) :
  In c (remove_first p s) -> In c s.
Proof.
  induction s as [| x s IH]; cbn [remove_first].
  - destruct (strip_prefix false p []) as [rest |] eqn:E; [| easy].
    now apply strip_prefix_In with (1 := E).
  - destruct (strip_prefix false p (x :: s)) as [rest |] eqn:E.
    + now apply strip_prefix_In with (1 := E).
    + intros [-> | Hin]; [now left | right; now apply IH].
Qed.

Lemma padded_length (n : nat) : ((n + (4 - n mod 4) mod 4) mod 4 = 0)%nat.
Proof.
  pose proof (Nat.mod_upper_bound n 4 ltac:(discriminate)) as Hr.
  rewrite Nat.Div0.add_mod.
  destruct (n mod 4)%nat as [| [| [| [| r]]]]; try reflexivity. lia.
Qed.

Section Segments.

Variable base64_decode : str -> str.
Variable JSON_parse : str -> outcome json_value.

(** X16: for a token [Bearer header.payload] or
    [Bearer header.payload.signature], the claims are what [JSON.parse]
    makes of the decoded payload, padded with [=] to a length that is a
    multiple of 4; the header and the signature are not looked at. *)
Theorem parseJWT_second_segment :
  forall header payload rest : str,
    ~ In "."%char header ->
    ~ In "."%char payload ->
    rest = [] \/ (exists signature, rest = "."%char :: signature) ->
    exists padding : nat,
      parseJWT_try base64_decode JSON_parse
        ("Bearer " ++ header ++ "." ++ payload ++ rest)
      = JSON_parse (base64_decode (payload ++ repeat "="%char padding))
      /\ (padding < 4)%nat
      /\ (List.length (payload ++ repeat "="%char padding) mod 4 = 0)%nat.
Proof.
  intros header payload rest Hh Hp Hrest.
  exists ((4 - List.length payload mod 4) mod 4)%nat.
  split; [| split].
  - unfold parseJWT_try. rewrite remove_first_prefix.
    cbn [list_ascii_of_string app]. rewrite (split_piece _ _ _ Hh).
    destruct Hrest as [-> | (signature & ->)].
    + rewrite app_nil_r, (split_whole _ _ Hp). reflexivity.
    + rewrite (split_piece _ _ _ Hp). reflexivity.
  - apply Nat.mod_upper_bound. discriminate.
  - rewrite length_app, repeat_length. apply padded_length.
Qed.

(** X17: a token without a dot has no claims segment: for every such token,
    whatever the decoder and the parser do, [parseJWT] returns the claims
    with [exp] and [iat] equal to [0]. *)
Theorem parseJWT_without_dot :
  forall token : str,
    ~ In "."%char token ->
    parseJWT base64_decode JSON_parse token
    = JObject [ ("exp" : str, JNumber (of_Z 0));
                ("iat" : str, JNumber (of_Z 0)) ].
Proof.
  intros token Hdot. unfold parseJWT, parseJWT_try.
  rewrite split_whole; [reflexivity |].
  intros Hin. now apply Hdot, (remove_first_In "Bearer ").
Qed.

End Segments.

Lemma parseJWT_second_segment_witness :
  exists padding : nat,
    parseJWT_try plain_decode claims_parse "Bearer hhh.ppppp.sss"
    = claims_parse (plain_decode ("ppppp" ++ repeat "="%char padding))
    /\ (padding < 4)%nat
    /\ (List.length ("ppppp" ++ repeat "="%char padding) mod 4 = 0)%nat.
Proof.
  refine (parseJWT_second_segment plain_decode claims_parse "hhh" "ppppp" ".sss"
            _ _ (or_intror (ex_intro _ (list_ascii_of_string "sss") eq_refl)));
    not_listed.
Defined.

Lemma parseJWT_without_dot_witness :
  parseJWT plain_decode claims_parse "Bearer abc"
  = JObject [ ("exp" : str, JNumber (of_Z 0));
              ("iat" : str, JNumber (of_Z 0)) ].
Proof.
  apply (parseJWT_without_dot plain_decode claims_parse "Bearer abc").
  not_listed.
Defined.

(** ** The stored credential *)

Lemma Qltb_lt (p q : Q) : Qltb p q = true <-> (p < q)%Q.
Proof.
  unfold Qltb. rewrite Qlt_alt. destruct (p ?= q)%Q; split; congruence.
Qed.

(** A credential that is valid at some time is valid at every earlier
    time. *)
Lemma isTokenValid_earlier (a : AuthData) (earlier now : Z) :
  (earlier <= now)%Z -> isTokenValid a now = true ->
  isTokenValid a earlier = true.
Proof.
  intros Hle. rewrite !isTokenValid_unfold.
  destruct (expiresAt a) as [| [|] | q]; cbn [js_lt of_Z]; try easy.
  rewrite !Qltb_lt. apply Qle_lt_trans.
  rewrite <- Zle_Qle. lia.
Qed.

Section StoredCredential.

Variable parse_stored : str -> outcome (option AuthData).
Variable stringify_auth : AuthData -> str.

(** X18: [getValidAuth] returns nothing but the record the file holds, and
    only while that record is valid: a credential returned at some time is
    the stored one, passes the validity check at that time, and is returned
    at every earlier time as well. *)
Theorem getValidAuth_stored_and_valid :
  forall (file : AuthFile) (a : AuthData) (earlier now : Z),
    getValidAuth parse_stored file now = Some a ->
    (earlier <= now)%Z ->
    loadStoredAuth parse_stored file = Some a
    /\ isTokenValid a now = true
    /\ getValidAuth parse_stored file earlier = Some a.
Proof.
  intros file a earlier now Hget Hle. unfold getValidAuth in *.
  destruct (loadStoredAuth parse_stored file) as [stored |]; [| discriminate].
  destruct (isTokenValid stored now) eqn:Hvalid; [| discriminate].
  injection Hget as <-.
  now rewrite (isTokenValid_earlier stored earlier now Hle Hvalid).
Qed.

(** X19: after [clearAuth], [getValidAuth] returns [null] at every time,
    whatever the file held; [clearAuth] creates no file where there is none,
    and clearing twice is clearing once.  (The empty text is no JSON:
    [JSON.parse] throws on it.) *)
Theorem clearAuth_forgets :
  forall (file : AuthFile) (now : Z) (message : str),
    parse_stored [] = Throws message ->
    getValidAuth parse_stored (clearAuth true file) now = None
    /\ (file = None -> clearAuth true file = None)
    /\ clearAuth true (clearAuth true file) = clearAuth true file.
Proof.
  intros file now message Hempty.
  destruct file as [data |]; cbn [clearAuth]; repeat split.
  - unfold getValidAuth, loadStoredAuth. now rewrite Hempty.
  - discriminate.
Qed.

(** Read by [loadStoredAuth], the file after [storeAuth] holds the record
    that [storeAuth] leaves in the store [authenticate] is stated on. *)
Lemma loadStoredAuth_after_storeAuth :
  forall (file : AuthFile) (a : AuthData) (written : WriteOutcome),
    (written = Written -> parse_stored (stringify_auth a) = Returns (Some a)) ->
    (forall n : nat,
        written = Cut n ->
        throws (parse_stored (firstn n (removelast (stringify_auth a))))) ->
    loadStoredAuth parse_stored (storeAuth_file stringify_auth written a file)
    = storeAuth written a (loadStoredAuth parse_stored file).
Proof.
  intros file a [| | n] Hround Hcut; cbn [storeAuth_file storeAuth].
  - unfold loadStoredAuth. now rewrite (Hround eq_refl).
  - reflexivity.
  - unfold loadStoredAuth. now destruct (Hcut n eq_refl) as [e ->].
Qed.

(** X20: a stored credential is read back, and a write that is cut short
    loses the one the file held.  For a record that [JSON.parse] reads back
    from its [JSON.stringify] text: after a [storeAuth] whose write succeeds,
    whatever the file held, [getValidAuth] returns that record exactly while
    it is valid.  And when [JSON.parse] rejects every part of that text that
    lacks its last character: after a [storeAuth] whose write fails once the
    file is open, [getValidAuth] returns [null] at every time, whatever the
    file held. *)
Theorem storeAuth_then_getValidAuth :
  forall (file : AuthFile) (a : AuthData) (now : Z),
    (parse_stored (stringify_auth a) = Returns (Some a) ->
     getValidAuth parse_stored (storeAuth_file stringify_auth Written a file)
       now
     = (if isTokenValid a now then Some a else None))
    /\ ((forall n : nat,
            throws (parse_stored
                      (firstn n (removelast (stringify_auth a))))) ->
        forall n : nat,
          getValidAuth parse_stored
            (storeAuth_file stringify_auth (Cut n) a file) now
          = None).
Proof.
  intros file a now. split.
  - intros Hround. unfold getValidAuth.
    rewrite loadStoredAuth_after_storeAuth; [reflexivity | auto |].
    intros n Hn. discriminate Hn.
  - intros Hcut n. unfold getValidAuth.
    rewrite loadStoredAuth_after_storeAuth; [reflexivity | |].
    + intros Hn. discriminate Hn.
    + intros m Hm. injection Hm as <-. apply Hcut.
Qed.

End StoredCredential.

Lemma getValidAuth_stored_and_valid_witness :
  getValidAuth expiry_parse (Some ("1700000300000" : str)) 1700000000000
    = Some sample_auth
  /\ loadStoredAuth expiry_parse (Some ("1700000300000" : str))
     = Some sample_auth
  /\ isTokenValid sample_auth 1700000000000 = true
  /\ getValidAuth expiry_parse (Some ("1700000300000" : str)) 0
     = Some sample_auth.
Proof.
  split; [reflexivity |].
  exact (getValidAuth_stored_and_valid expiry_parse
           (Some (list_ascii_of_string "1700000300000")) sample_auth
           0 1700000000000 eq_refl ltac:(discriminate)).
Defined.

Lemma clearAuth_forgets_witness :
  getValidAuth expiry_parse
    (clearAuth true (Some ("1700000300000" : str))) 1700000000000 = None
  /\ ((Some ("1700000300000" : str) : AuthFile) = None ->
      clearAuth true (Some ("1700000300000" : str)) = None)
  /\ clearAuth true (clearAuth true (Some ("1700000300000" : str)))
     = clearAuth true (Some ("1700000300000" : str)).
Proof.
  exact (clearAuth_forgets expiry_parse
           (Some (list_ascii_of_string "1700000300000")) 1700000000000
           "Unexpected end of JSON input" eq_refl).
Defined.

Lemma storeAuth_then_getValidAuth_witness :
  getValidAuth braced_parse
    (storeAuth_file braced_stringify Written sample_auth (Some ("old" : str)))
    1700000000000
  = Some sample_auth
  /\ getValidAuth braced_parse
       (storeAuth_file braced_stringify Written sample_auth
          (Some ("old" : str)))
       1700000299000
     = None
  /\ getValidAuth braced_parse
       (storeAuth_file braced_stringify (Cut 5) sample_auth
          (Some ("{1700000300000}" : str)))
       1700000000000
     = None.
Proof.
  split; [| split].
  - exact (proj1 (storeAuth_then_getValidAuth braced_parse braced_stringify
                    (Some (list_ascii_of_string "old")) sample_auth
                    1700000000000) eq_refl).
  - exact (proj1 (storeAuth_then_getValidAuth braced_parse braced_stringify
                    (Some (list_ascii_of_string "old")) sample_auth
                    1700000299000) eq_refl).
  - refine (proj2 (storeAuth_then_getValidAuth braced_parse braced_stringify
                     (Some (list_ascii_of_string "{1700000300000}"))
                     sample_auth 1700000000000) _ 5%nat).
    intros n.
    do 15 (destruct n as [| n]; [eexists; reflexivity |]).
    eexists; reflexivity.
Defined.

(** * Further properties of the payload and of the request *)

Lemma map_indexed_app {X Y : Type} (f : X -> nat -> Y) (xs ys : list X) :
  forall k : nat,
    map_indexed f k (xs ++ ys)
    = map_indexed f k xs ++ map_indexed f (k + List.length xs) ys.
Proof.
  induction xs as [| x xs IH]; intros k.
  - cbn. now rewrite Nat.add_0_r.
  - cbn [app map_indexed List.length]. rewrite IH.
    now rewrite Nat.add_succ_r.
Qed.

Lemma map_indexed_orders (xs : list WorkoutStep) :
  forall k : nat,
    map stepOrder
      (map_indexed (fun step index => convertWorkoutStep step (index + 1)) k xs)
    = seq (k + 1) (List.length xs).
Proof.
  induction xs as [| x xs IH]; intros k; [reflexivity |].
  cbn [map_indexed map List.length seq].
  rewrite (proj1 (convertWorkoutStep_order x (k + 1))). f_equal.
  rewrite IH. f_equal.
Qed.

(** X21: the step orders of a payload are 1, 2, ... up to the number of
    steps, in this sequence; and steps added at the end of a workout leave
    the converted steps before them as they were, the added ones being
    numbered on from there. *)
Theorem convertToGarminPayload_numbering :
  forall (workoutData : WorkoutData) (more : list WorkoutStep),
    map stepOrder (steps_of (convertToGarminPayload workoutData))
      = seq 1 (List.length (steps workoutData))
    /\ steps_of (convertToGarminPayload (with_more_steps workoutData more))
       = steps_of (convertToGarminPayload workoutData)
           ++ map_indexed
                (fun step index => convertWorkoutStep step (index + 1))
                (List.length (steps workoutData)) more.
Proof.
  intros workoutData more.
  unfold steps_of, convertToGarminPayload.
  cbn [workoutSegments flat_map workoutSteps with_more_steps steps].
  rewrite !app_nil_r. split.
  - apply (map_indexed_orders (steps workoutData) 0).
  - apply (map_indexed_app _ (steps workoutData) more 0).
Qed.

(** X22: [createGarminWorkout] consults [fetch] at one request only, the
    POST of the converted workout to the workout service with the token as
    [authorization] header and the cookies as [cookie] header: two
    transports that answer this request alike give the same result. *)
Theorem createGarminWorkout_one_request :
  forall (description authToken cookies sport : str) (customName : option str)
         (llmParser : LlmParser) (workoutData : WorkoutData)
         (fetch fetch' : Request -> outcome Response),
    llmParser description sport customName = Returns workoutData ->
    fetch (workout_request authToken cookies sport
             (convertToGarminPayload workoutData))
    = fetch' (workout_request authToken cookies sport
                (convertToGarminPayload workoutData)) ->
    createGarminWorkout description authToken cookies customName sport
      (Some llmParser) fetch
    = createGarminWorkout description authToken cookies customName sport
        (Some llmParser) fetch'
    /\ method (workout_request authToken cookies sport
                 (convertToGarminPayload workoutData)) = "POST"
    /\ table_get "authorization"
         (headers (workout_request authToken cookies sport
                     (convertToGarminPayload workoutData))) = Some authToken
    /\ table_get "cookie"
         (headers (workout_request authToken cookies sport
                     (convertToGarminPayload workoutData))) = Some cookies
    /\ table_get "referer"
         (headers (workout_request authToken cookies sport
                     (convertToGarminPayload workoutData)))
       = Some ("https://connect.garmin.com/modern/workout/create/" ++ sport)
    /\ body (workout_request authToken cookies sport
               (convertToGarminPayload workoutData))
       = convertToGarminPayload workoutData.
Proof.
  intros description authToken cookies sport customName llmParser workoutData
    fetch fetch' Hparse Hsame.
  split; [| repeat split].
  unfold createGarminWorkout, createGarminWorkout_try.
  rewrite Hparse. cbn [bind]. now rewrite Hsame.
Qed.

Lemma createGarminWorkout_one_request_witness :
  createGarminWorkout "Easy run" "Bearer t" "a=b" None "running"
    (Some (structured sample_workout))
    (fun _ => Returns response_200)
  = createGarminWorkout "Easy run" "Bearer t" "a=b" None "running"
      (Some (structured sample_workout))
      (fun request =>
         if str_eqb (method request) "POST" then Returns response_200
         else Throws "only POST is answered").
Proof.
  exact (proj1 (createGarminWorkout_one_request "Easy run" "Bearer t" "a=b"
                  "running" None (structured sample_workout) sample_workout
                  (fun _ => Returns response_200)
                  (fun request =>
                     if str_eqb (method request) "POST"
                     then Returns response_200
                     else Throws "only POST is answered")
                  eq_refl eq_refl)).
Defined.
